(** * ancestral-synth: entity resolution and family-graph consistency

    A shallow embedding of the reference prototype
    (ancestral_synth/agents/dedup_agent.py, services/validation.py,
    persistence/repositories.py, services/genealogy_service.py) and the
    properties of its name parser, heuristic scorer, validator, creation
    queue, reference resolver and merge engine.

    Conventions of the embedding.
    - A Python [str] is a list of characters.  A character is an [ascii]
      standing for the code point of the same number (U+0000 .. U+00FF);
      the character tables below are those of Python for that range.
    - Python [float] is IEEE 754 binary64, i.e. Rocq's primitive [float].
    - Python [int] is [Z]; [None]-able values are [option].
    - An exception is a value of [exn] carried by the [result] monad.
    - A database table is the list of its rows in insertion order; the
      tables of events and notes are left out.
    - Messages of the log below warning level are left out. *)

From Stdlib Require Import String Ascii List Bool ZArith NArith Lia DecimalString.
From Stdlib Require Import Sorted Permutation.
From Stdlib Require Import Floats.PrimFloat.
Import ListNotations.

Set Implicit Arguments.
Set Warnings "-inexact-float".
Local Open Scope bool_scope.

(* ================================================================== *)
(** * Python values: exceptions, strings                              *)
(* ================================================================== *)

Module Py.

(** The exceptions the modelled code can raise. *)
Inductive exn : Type :=
| IndexError
| ValueError.

Inductive result (A : Type) : Type :=
| Ok (a : A)
| Raise (e : exn).
Arguments Ok {A} a.
Arguments Raise {A} e.

Definition bind {A B} (m : result A) (f : A -> result B) : result B :=
  match m with
  | Ok a => f a
  | Raise e => Raise e
  end.

Definition str : Type := list ascii.

(** A literal: the characters of an ASCII string constant. *)
Definition lit (s : string) : str := list_ascii_of_string s.

Definition code (c : ascii) : N := N_of_ascii c.

Definition in_range (lo hi : N) (c : ascii) : bool :=
  (lo <=? code c)%N && (code c <=? hi)%N.

(** [str.isspace] / regex [\s] on one character. *)
Definition isspace (c : ascii) : bool :=
  in_range 9 13 c || in_range 28 32 c
  || (code c =? 133)%N || (code c =? 160)%N.

(** Regex [\w]: alphanumeric (in Python's sense) or underscore. *)
Definition isword (c : ascii) : bool :=
  in_range 48 57 c || in_range 65 90 c || (code c =? 95)%N
  || in_range 97 122 c || (code c =? 170)%N || in_range 178 179 c
  || (code c =? 181)%N || in_range 185 186 c || in_range 188 190 c
  || in_range 192 214 c || in_range 216 246 c || in_range 248 255 c.

(** [str.lower] on one character. *)
Definition lower_char (c : ascii) : ascii :=
  if in_range 65 90 c || in_range 192 214 c || in_range 216 222 c
  then ascii_of_N (code c + 32)
  else c.

Definition lower (s : str) : str := map lower_char s.

Definition char_eqb (a b : ascii) : bool := Ascii.eqb a b.

Fixpoint str_eqb (a b : str) : bool :=
  match a, b with
  | [], [] => true
  | x :: a', y :: b' => char_eqb x y && str_eqb a' b'
  | _, _ => false
  end.

(** [x in xs] for a list or set of strings. *)
Definition str_in (x : str) (xs : list str) : bool :=
  existsb (str_eqb x) xs.

(** [set(xs) & set(ys)] is non-empty. *)
Definition intersects (xs ys : list str) : bool :=
  existsb (fun x => str_in x ys) xs.

(** [set(xs) == set(ys)]. *)
Definition set_eqb (xs ys : list str) : bool :=
  forallb (fun x => str_in x ys) xs && forallb (fun y => str_in y xs) ys.

Fixpoint lstrip_by (p : ascii -> bool) (s : str) : str :=
  match s with
  | c :: s' => if p c then lstrip_by p s' else s
  | [] => []
  end.

Definition rstrip_by (p : ascii -> bool) (s : str) : str :=
  rev (lstrip_by p (rev s)).

(** [s.strip()] *)
Definition strip (s : str) : str := rstrip_by isspace (lstrip_by isspace s).

(** [s.rstrip(".")] *)
Definition rstrip_dot (s : str) : str := rstrip_by (char_eqb "."%char) s.

(** [s.split()]: maximal runs of non-whitespace characters.  [cur] is
    the token being read, reversed, if one has been started. *)
Fixpoint split_from (cur : option str) (s : str) : list str :=
  match s with
  | [] => match cur with
          | Some t => [rev t]
          | None => []
          end
  | c :: s' =>
      if isspace c then
        match cur with
        | Some t => rev t :: split_from None s'
        | None => split_from None s'
        end
      else
        split_from (Some (c :: match cur with Some t => t | None => [] end)) s'
  end.

Definition split (s : str) : list str := split_from None s.

(** Truthiness of a string and of an optional string. *)
Definition nonempty (s : str) : bool :=
  match s with [] => false | _ => true end.

Definition truthy_str (o : option str) : bool :=
  match o with Some s => nonempty s | None => false end.

(** Truthiness of an optional integer: [None] and [0] are false. *)
Definition truthy_int (o : option Z) : bool :=
  match o with Some z => negb (z =? 0)%Z | None => false end.

(** [xs[i]] for [i >= 0]. *)
Definition index {A} (xs : list A) (i : nat) : result A :=
  match nth_error xs i with
  | Some x => Ok x
  | None => Raise IndexError
  end.

(** [xs[-1]] *)
Definition index_last {A} (xs : list A) : result A :=
  match xs with
  | [] => Raise IndexError
  | _ => index xs (length xs - 1)
  end.

(** [xs[1:-1]] *)
Definition slice_inner {A} (xs : list A) : list A :=
  firstn (length xs - 2) (skipn 1 xs).

End Py.

Notation "x <- m ;; k" := (Py.bind m (fun x => k))
  (at level 61, m at next level, right associativity).

Notation "' p <- m ;; k" := (Py.bind m (fun x => match x with p => k end))
  (at level 61, p pattern, m at next level, right associativity).

(* ================================================================== *)
(** * The fragment of Python's [re] used by the name parser            *)
(* ================================================================== *)

Module Re.
Import Py.

(** Patterns.  Repetition is only ever applied to a character class in
    the source's patterns, which is what [Plus] and [Star] provide; all
    patterns are compiled with [re.IGNORECASE], so [Chr] compares
    lower-cased characters. *)
Inductive regex : Type :=
| Chr (c : ascii)                 (* a literal character *)
| Plus (p : ascii -> bool)        (* [p+], greedy *)
| Star (p : ascii -> bool)        (* [p*], greedy *)
| Opt (r : regex)                 (* [r?], greedy *)
| Seq (r1 r2 : regex)
| Alt (r1 r2 : regex)
| Group (r : regex)               (* capture group 1 *)
| Boundary                        (* [\b] *)
| Eps.                            (* the empty pattern *)

Definition isword_opt (o : option ascii) : bool :=
  match o with Some c => isword c | None => false end.

Section Matcher.
Variable R : Type.

(** A continuation receives the character before the cursor, the
    remaining input and the text of group 1 so far. *)
Definition cont : Type := option ascii -> str -> option str -> option R.

Fixpoint star (p : ascii -> bool) (prev : option ascii) (s : str)
         (cap : option str) (k : cont) : option R :=
  match s with
  | c :: s' =>
      if p c then
        match star p (Some c) s' cap k with
        | Some v => Some v
        | None => k prev s cap
        end
      else k prev s cap
  | [] => k prev s cap
  end.

(** Backtracking match at the cursor, in the order Python tries the
    alternatives: longest repetition first, left alternative first. *)
Fixpoint rmatch (r : regex) (prev : option ascii) (s : str)
         (cap : option str) (k : cont) : option R :=
  match r with
  | Chr c =>
      match s with
      | x :: s' =>
          if char_eqb (lower_char x) (lower_char c)
          then k (Some x) s' cap else None
      | [] => None
      end
  | Plus p =>
      match s with
      | x :: s' => if p x then star p (Some x) s' cap k else None
      | [] => None
      end
  | Star p => star p prev s cap k
  | Opt r1 =>
      match rmatch r1 prev s cap k with
      | Some v => Some v
      | None => k prev s cap
      end
  | Seq r1 r2 =>
      rmatch r1 prev s cap (fun prev' s' cap' => rmatch r2 prev' s' cap' k)
  | Alt r1 r2 =>
      match rmatch r1 prev s cap k with
      | Some v => Some v
      | None => rmatch r2 prev s cap k
      end
  | Group r1 =>
      rmatch r1 prev s cap
        (fun prev' s' _ => k prev' s' (Some (firstn (length s - length s') s)))
  | Boundary =>
      if xorb (isword_opt prev) (isword_opt (hd_error s))
      then k prev s cap else None
  | Eps => k prev s cap
  end.
End Matcher.

(** A match starting at the cursor: group 1 and the number of characters
    consumed. *)
Definition match_here (r : regex) (prev : option ascii) (s : str)
  : option (str * nat) :=
  rmatch r prev s None
    (fun _ s' cap =>
       Some (match cap with Some g => g | None => [] end,
             length s - length s')).

(** [re.finditer]: the non-overlapping matches from left to right.  The
    result lists, for every match, the text between the previous match
    and this one together with group 1, and ends with the text after the
    last match.  [skip] counts the characters of the current match still
    to be passed over; [before] is the unmatched text read so far,
    reversed. *)
Fixpoint scan (r : regex) (prev : option ascii) (s : str) (skip : nat)
         (before : str) : list (str * str) * str :=
  match s with
  | [] => ([], rev before)
  | c :: s' =>
      match skip with
      | S n => scan r (Some c) s' n before
      | O =>
          match match_here r prev s with
          | Some (g, S n) =>
              let '(ms, tl) := scan r (Some c) s' n [] in
              ((rev before, g) :: ms, tl)
          | _ => scan r (Some c) s' 0 (c :: before)
          end
      end
  end.

Definition finditer (r : regex) (s : str) : list (str * str) * str :=
  scan r None s 0 [].

(** [re.search(r, s)], reduced to group 1 of the match. *)
Definition search (r : regex) (s : str) : option str :=
  match fst (finditer r s) with
  | (_, g) :: _ => Some g
  | [] => None
  end.

(** [re.findall(r, s)] for a pattern with one group. *)
Definition findall (r : regex) (s : str) : list str :=
  map snd (fst (finditer r s)).

(** [re.sub(r, repl, s)] *)
Definition sub (r : regex) (repl : str) (s : str) : str :=
  let '(ms, tl) := finditer r s in
  concat (map (fun m => fst m ++ repl) ms) ++ tl.

(** The characters of a literal, in sequence. *)
Definition word (s : string) : regex :=
  fold_right (fun c r => Seq (Chr c) r) Eps (lit s).

(** Sequencing, written infix as in a pattern read left to right. *)
Definition seqs (rs : list regex) : regex := fold_right Seq Eps rs.

End Re.

(* ================================================================== *)
(** * agents/dedup_agent.py: name parser and heuristic scorer          *)
(* ================================================================== *)

Module Dedup.
Import Py.

Record ParsedName : Type := {
  given_name : str;
  middle_names : list str;
  surname : str;
  maiden_name : option str;
  suffixes : option (list str)
}.

(** Property [ParsedName.all_surnames]. *)
Definition all_surnames (p : ParsedName) : list str :=
  lower (surname p)
  :: (if truthy_str (maiden_name p)
      then match maiden_name p with Some m => [lower m] | None => [] end
      else []).

(** U+00E9, the e-acute of "née". *)
Definition e_acute : ascii := ascii_of_N 233.

Definition not_rparen (c : ascii) : bool := negb (char_eqb c ")"%char).

(** [nee_patterns]:
    - [\(née\s+([^)]+)\)]
    - [\(born\s+([^)]+)\)]
    - [\(maiden\s+name:?\s*([^)]+)\)]
    - [née\s+(\w+)] *)
Definition nee_patterns : list Re.regex :=
  [ Re.seqs [Re.Chr "("; Re.Chr "n"; Re.Chr e_acute; Re.Chr "e";
             Re.Plus isspace; Re.Group (Re.Plus not_rparen); Re.Chr ")"];
    Re.seqs [Re.Chr "("; Re.word "born";
             Re.Plus isspace; Re.Group (Re.Plus not_rparen); Re.Chr ")"];
    Re.seqs [Re.Chr "("; Re.word "maiden"; Re.Plus isspace; Re.word "name";
             Re.Opt (Re.Chr ":"); Re.Star isspace;
             Re.Group (Re.Plus not_rparen); Re.Chr ")"];
    Re.seqs [Re.Chr "n"; Re.Chr e_acute; Re.Chr "e";
             Re.Plus isspace; Re.Group (Re.Plus isword)] ]%char.

(** [suffix_pattern = \b(Jr\.?|Sr\.?|III|IV|II|2nd|3rd)\b] *)
Definition suffix_pattern : Re.regex :=
  Re.seqs
    [ Re.Boundary;
      Re.Group
        (Re.Alt (Re.Seq (Re.word "Jr") (Re.Opt (Re.Chr ".")))
        (Re.Alt (Re.Seq (Re.word "Sr") (Re.Opt (Re.Chr ".")))
        (Re.Alt (Re.word "III")
        (Re.Alt (Re.word "IV")
        (Re.Alt (Re.word "II")
        (Re.Alt (Re.word "2nd") (Re.word "3rd")))))));
      Re.Boundary ]%char.

(** [\s+] *)
Definition spaces_pattern : Re.regex := Re.Plus isspace.

(** The loop over [nee_patterns]: the first pattern that is found gives
    the maiden name and is removed from the name. *)
Fixpoint extract_maiden (patterns : list Re.regex) (name : str)
  : option str * str :=
  match patterns with
  | [] => (None, name)
  | pattern :: rest =>
      match Re.search pattern name with
      | Some g => (Some (strip g), strip (Re.sub pattern [] name))
      | None => extract_maiden rest name
      end
  end.

(** The suffix step: the suffixes found and the name without them. *)
Definition extract_suffixes (name : str) : list str * str :=
  match Re.findall suffix_pattern name with
  | [] => ([], name)
  | suffix_matches =>
      (map rstrip_dot suffix_matches, strip (Re.sub suffix_pattern [] name))
  end.

(** The text that is split into tokens: the name after maiden-name
    extraction, suffix extraction and whitespace collapse. *)
Definition cleaned_name (full_name : str) : str :=
  let name := strip full_name in
  let name := snd (extract_maiden nee_patterns name) in
  let name := snd (extract_suffixes name) in
  strip (Re.sub spaces_pattern (lit " ") name).

Definition or_none (xs : list str) : option (list str) :=
  match xs with [] => None | _ => Some xs end.

Definition parse_name (full_name : str) : result ParsedName :=
  let name := strip full_name in
  let '(maiden, name) := extract_maiden nee_patterns name in
  let '(sufs, name) := extract_suffixes name in
  let name := strip (Re.sub spaces_pattern (lit " ") name) in
  let parts := split name in
  if (length parts =? 0)%nat then
    Ok {| given_name := lit "Unknown"; middle_names := [];
          surname := lit "Unknown";
          maiden_name := maiden; suffixes := or_none sufs |}
  else if (length parts =? 1)%nat then
    g <- index parts 0 ;;
    Ok {| given_name := g; middle_names := [];
          surname := lit "Unknown";
          maiden_name := maiden; suffixes := or_none sufs |}
  else if (length parts =? 2)%nat then
    g <- index parts 0 ;;
    s <- index parts 1 ;;
    Ok {| given_name := g; middle_names := []; surname := s;
          maiden_name := maiden; suffixes := or_none sufs |}
  else
    g <- index parts 0 ;;
    s <- index_last parts ;;
    Ok {| given_name := g; middle_names := slice_inner parts; surname := s;
          maiden_name := maiden; suffixes := or_none sufs |}.

(** Truthiness of [ParsedName.suffixes] ([None] or a non-empty list). *)
Definition has_suffixes (p : ParsedName) : bool :=
  match suffixes p with Some (_ :: _) => true | _ => false end.

Definition suffix_list (p : ParsedName) : list str :=
  match suffixes p with Some l => l | None => [] end.

(** The name tokens [[given_name] + middle_names + [surname]], lower-cased. *)
Definition all_parts (p : ParsedName) : list str :=
  map lower (given_name p :: middle_names p ++ [surname p]).

(** Python's [min(x, y)] and [max(x, y)] on floats. *)
Definition py_min (x y : float) : float := if PrimFloat.ltb y x then y else x.
Definition py_max (x y : float) : float := if PrimFloat.ltb x y then y else x.

(** The name part of [heuristic_match_score], on parsed names. *)
Definition name_score (new_parsed candidate_parsed : ParsedName) : float :=
  if str_eqb (lower (given_name new_parsed)) (lower (given_name candidate_parsed))
  then
    let s := (0.0 + 0.25)%float in
    let s :=
      if intersects (all_surnames new_parsed) (all_surnames candidate_parsed)
      then (s + 0.25)%float
      else if str_in (lower (surname new_parsed)) (all_parts candidate_parsed)
      then (s + 0.2)%float
      else if str_in (lower (surname candidate_parsed)) (all_parts new_parsed)
      then (s + 0.2)%float
      else s in
    let new_middle_set := map lower (middle_names new_parsed) in
    let candidate_middle_set := map lower (middle_names candidate_parsed) in
    match new_middle_set, candidate_middle_set with
    | _ :: _, _ :: _ =>
        if intersects new_middle_set candidate_middle_set
        then (s + 0.1)%float else s
    | _, _ => s
    end
  else 0.0%float.

(** The birth-year part of [heuristic_match_score]. *)
Definition year_score (new_birth_year candidate_birth_year : option Z) : float :=
  if truthy_int new_birth_year && truthy_int candidate_birth_year then
    match new_birth_year, candidate_birth_year with
    | Some a, Some b =>
        let year_diff := Z.abs (a - b) in
        if (year_diff =? 0)%Z then 0.5%float
        else if (year_diff <=? 2)%Z then 0.45%float
        else if (year_diff <=? 5)%Z then 0.3%float
        else 0.0%float
    | _, _ => 0.0%float
    end
  else 0.0%float.

Definition heuristic_match_score
           (new_name : str) (new_birth_year : option Z)
           (candidate_name : str) (candidate_birth_year : option Z)
  : result float :=
  new_parsed <- parse_name new_name ;;
  candidate_parsed <- parse_name candidate_name ;;
  if has_suffixes new_parsed && has_suffixes candidate_parsed
     && negb (set_eqb (suffix_list new_parsed) (suffix_list candidate_parsed))
  then Ok 0.0%float
  else
    Ok (py_max 0.0
          (py_min (name_score new_parsed candidate_parsed
                   + year_score new_birth_year candidate_birth_year) 1.0))%float.

End Dedup.


(* ================================================================== *)
(** * domain/enums.py, domain/models.py                                *)
(* ================================================================== *)

Module Domain.
Import Py.

(** [uuid.UUID]: the 128-bit value.  [str(u)] has a fixed width, so the
    order of the string forms is the order of the values. *)
Definition UUID : Type := N.

Inductive PersonStatus : Type := PENDING | QUEUED | PROCESSING | COMPLETE.

Inductive Gender : Type := MALE | FEMALE | UNKNOWN.

Inductive RelationshipType : Type :=
| PARENT | CHILD | SPOUSE | SIBLING | GRANDPARENT | GRANDCHILD
| UNCLE | AUNT | COUSIN | NIECE | NEPHEW | OTHER.

Inductive EventType : Type :=
| BIRTH | DEATH | MARRIAGE | DIVORCE | BAPTISM | GRADUATION | IMMIGRATION
| EMIGRATION | MILITARY_SERVICE | OCCUPATION | RESIDENCE | RETIREMENT
| OTHER_EVENT.

Definition status_eqb (a b : PersonStatus) : bool :=
  match a, b with
  | PENDING, PENDING | QUEUED, QUEUED
  | PROCESSING, PROCESSING | COMPLETE, COMPLETE => true
  | _, _ => false
  end.

Definition gender_eqb (a b : Gender) : bool :=
  match a, b with
  | MALE, MALE | FEMALE, FEMALE | UNKNOWN, UNKNOWN => true
  | _, _ => false
  end.

(** The value of an [EventType], as an f-string prints it. *)
Definition event_type_str (t : EventType) : str :=
  lit match t with
      | BIRTH => "birth" | DEATH => "death" | MARRIAGE => "marriage"
      | DIVORCE => "divorce" | BAPTISM => "baptism"
      | GRADUATION => "graduation" | IMMIGRATION => "immigration"
      | EMIGRATION => "emigration" | MILITARY_SERVICE => "military_service"
      | OCCUPATION => "occupation" | RESIDENCE => "residence"
      | RETIREMENT => "retirement" | OTHER_EVENT => "other"
      end.

(** [datetime.date] *)
Record date : Type := mkdate { year : Z; month : Z; day : Z }.

(** [date(y, 1, 1)]: [ValueError] outside [MINYEAR .. MAXYEAR]. *)
Definition date_jan1 (y : Z) : result date :=
  if (1 <=? y)%Z && (y <=? 9999)%Z then Ok (mkdate y 1 1) else Raise ValueError.

Definition year_of (d : option date) : option Z :=
  match d with Some d => Some (year d) | None => None end.

Record PersonReference : Type := {
  name : str;
  relationship : RelationshipType;
  approximate_birth_year : option Z;
  ref_gender : Gender;
  context : option str
}.

(** [Person] and its table row [PersonTable] have the same columns; one
    record stands for both. *)
Record Person : Type := {
  id : UUID;
  status : PersonStatus;
  given_name : str;
  surname : str;
  maiden_name : option str;
  nickname : option str;
  gender : Gender;
  birth_date : option date;
  birth_place : option str;
  death_date : option date;
  death_place : option str;
  biography : option str;
  generation : Z
}.

Record ExtractedEvent : Type := {
  event_type : EventType;
  event_date : option date;
  event_year : option Z;
  location : option str;
  description : str
}.

Record ExtractedData : Type := {
  x_given_name : str;
  x_surname : str;
  x_maiden_name : option str;
  x_gender : Gender;
  x_birth_date : option date;
  x_birth_place : option str;
  x_birth_year : option Z;
  x_death_date : option date;
  x_death_place : option str;
  x_death_year : option Z;
  parents : list PersonReference;
  children : list PersonReference;
  spouses : list PersonReference;
  siblings : list PersonReference;
  other_relatives : list PersonReference;
  events : list ExtractedEvent;
  notes : list str
}.

End Domain.

(* ================================================================== *)
(** * services/validation.py                                           *)
(* ================================================================== *)

Module Validation.
Import Py Domain.

Record ValidationResult : Type := {
  is_valid : bool;
  errors : list str;
  warnings : list str
}.

Record Validator : Type := {
  min_parent_age : Z;
  max_parent_age : Z;
  max_lifespan : Z
}.

(** [str(n)] for an integer, as an f-string prints it. *)
Definition repr_int (n : Z) : str :=
  lit (DecimalString.NilZero.string_of_int (Z.to_int n)).

(** [Validator._get_year] *)
Definition _get_year (date_val : option date) (year_val : option Z) : option Z :=
  match date_val with
  | Some d => Some (year d)
  | None => year_val
  end.

Definition msg_death_before_birth (death_year birth_year : Z) : str :=
  lit "Death year (" ++ repr_int death_year
  ++ lit ") before birth year (" ++ repr_int birth_year ++ lit ")".

Definition msg_long_lifespan (lifespan : Z) : str :=
  lit "Unusually long lifespan: " ++ repr_int lifespan ++ lit " years".

Definition msg_short_lifespan (lifespan : Z) : str :=
  lit "Very short lifespan: " ++ repr_int lifespan ++ lit " years".

Definition msg_too_young (parent_name : str) (age min_age : Z) : str :=
  lit "Parent " ++ parent_name ++ lit " too young at child's birth: "
  ++ lit "age " ++ repr_int age ++ lit " (min: " ++ repr_int min_age ++ lit ")".

Definition msg_very_old (parent_name : str) (age : Z) : str :=
  lit "Parent " ++ parent_name ++ lit " very old at child's birth: age "
  ++ repr_int age.

Definition msg_born_after_death (child_birth_year : Z) (parent_name : str)
           (parent_death_year : Z) : str :=
  lit "Child born in " ++ repr_int child_birth_year ++ lit ", but parent "
  ++ parent_name ++ lit " died in " ++ repr_int parent_death_year.

Definition msg_age_gap (spouse_name : str) (age_gap : Z) : str :=
  lit "Large age gap with spouse " ++ spouse_name ++ lit ": "
  ++ repr_int age_gap ++ lit " years".

Definition msg_event_before_birth (t : EventType) (event_year birth_year : Z) : str :=
  lit "Event '" ++ event_type_str t ++ lit "' in " ++ repr_int event_year
  ++ lit " before birth (" ++ repr_int birth_year ++ lit ")".

Definition msg_event_after_death (t : EventType) (event_year death_year : Z) : str :=
  lit "Event '" ++ event_type_str t ++ lit "' in " ++ repr_int event_year
  ++ lit " after death (" ++ repr_int death_year ++ lit ")".

(** The two lists a validation run appends to. *)
Definition report : Type := (list str * list str)%type.

(** [Validator._validate_parent_child] *)
Definition _validate_parent_child (v : Validator) (parent_name : str)
           (parent_birth_year child_birth_year : option Z)
           (parent_death_year : option Z) (r : report) : report :=
  match parent_birth_year, child_birth_year with
  | Some pb, Some cb =>
      let '(errs, warns) := r in
      let parent_age_at_birth := (cb - pb)%Z in
      let '(errs, warns) :=
        if (parent_age_at_birth <? min_parent_age v)%Z then
          (errs ++ [msg_too_young parent_name parent_age_at_birth (min_parent_age v)],
           warns)
        else if (max_parent_age v + 20 <? parent_age_at_birth)%Z then
          (errs, warns ++ [msg_very_old parent_name parent_age_at_birth])
        else (errs, warns) in
      match parent_death_year with
      | Some pd =>
          if (pd + 1 <? cb)%Z
          then (errs ++ [msg_born_after_death cb parent_name pd], warns)
          else (errs, warns)
      | None => (errs, warns)
      end
  | _, _ => r
  end.

(** The lifespan block of [validate_extracted_data]. *)
Definition check_lifespan (v : Validator) (birth_year death_year : option Z)
           (r : report) : report :=
  if truthy_int birth_year && truthy_int death_year then
    match birth_year, death_year with
    | Some b, Some d =>
        let lifespan := (d - b)%Z in
        if (lifespan <? 0)%Z then (fst r ++ [msg_death_before_birth d b], snd r)
        else if (max_lifespan v <? lifespan)%Z
        then (fst r, snd r ++ [msg_long_lifespan lifespan])
        else if (lifespan <? 1)%Z
        then (fst r, snd r ++ [msg_short_lifespan lifespan])
        else r
    | _, _ => r
    end
  else r.

Definition check_spouse (birth_year : option Z) (spouse : PersonReference)
           (r : report) : report :=
  if truthy_int birth_year && truthy_int (approximate_birth_year spouse) then
    match birth_year, approximate_birth_year spouse with
    | Some b, Some sb =>
        let age_gap := Z.abs (b - sb) in
        if (30 <? age_gap)%Z
        then (fst r, snd r ++ [msg_age_gap (name spouse) age_gap])
        else r
    | _, _ => r
    end
  else r.

Definition check_event (birth_year death_year : option Z) (event : ExtractedEvent)
           (r : report) : report :=
  let event_year := _get_year (event_date event) (event_year event) in
  if truthy_int event_year && truthy_int birth_year then
    match event_year, birth_year with
    | Some ey, Some b =>
        let r :=
          if (ey <? b)%Z
          then (fst r ++ [msg_event_before_birth (event_type event) ey b], snd r)
          else r in
        match death_year with
        | Some d =>
            if truthy_int death_year && (d <? ey)%Z
            then (fst r ++ [msg_event_after_death (event_type event) ey d], snd r)
            else r
        | None => r
        end
    | _, _ => r
    end
  else r.

(** A [for] loop that threads the two lists through its body. *)
Definition for_each {A} (xs : list A) (body : A -> report -> report)
           (r : report) : report :=
  fold_left (fun acc x => body x acc) xs r.

Definition subject_name (data : ExtractedData) : str :=
  x_given_name data ++ lit " " ++ x_surname data.

(** [Validator.validate_extracted_data] *)
Definition validate_extracted_data (v : Validator) (data : ExtractedData)
  : ValidationResult :=
  let birth_year := _get_year (x_birth_date data) (x_birth_year data) in
  let death_year := _get_year (x_death_date data) (x_death_year data) in
  let r := check_lifespan v birth_year death_year ([], []) in
  let r := for_each (parents data)
             (fun parent =>
                _validate_parent_child v (name parent)
                  (approximate_birth_year parent) birth_year None) r in
  let r := for_each (children data)
             (fun child =>
                _validate_parent_child v (subject_name data)
                  birth_year (approximate_birth_year child) death_year) r in
  let r := for_each (spouses data) (check_spouse birth_year) r in
  let r := for_each (events data) (check_event birth_year death_year) r in
  {| is_valid := (length (fst r) =? 0)%nat;
     errors := fst r;
     warnings := snd r |}.

Definition msg_empty_name : str := lit "Person reference has empty name".

Definition msg_future (y : Z) : str :=
  lit "Birth year " ++ repr_int y ++ lit " is in the future".

Definition msg_very_old_year (y : Z) : str :=
  lit "Very old birth year: " ++ repr_int y.

(** [Validator.validate_person_reference]; [current_year] is
    [date.today().year]. *)
Definition validate_person_reference (current_year : Z)
           (reference : PersonReference) : ValidationResult :=
  let errs :=
    if negb (nonempty (name reference)) || negb (nonempty (strip (name reference)))
    then [msg_empty_name] else [] in
  let '(errs, warns) :=
    if truthy_int (approximate_birth_year reference) then
      match approximate_birth_year reference with
      | Some y =>
          (if (current_year <? y)%Z then errs ++ [msg_future y] else errs,
           if (y <? 1500)%Z then [msg_very_old_year y] else [])
      | None => (errs, [])
      end
    else (errs, []) in
  {| is_valid := (length errs =? 0)%nat;
     errors := errs;
     warnings := warns |}.

End Validation.

(* ================================================================== *)
(** * persistence/tables.py, persistence/repositories.py               *)
(* ================================================================== *)

Module Persistence.
Import Py Domain.

(** A row of [child_links]: (parent_id, child_id). *)
Definition ChildLink : Type := (UUID * UUID)%type.

(** A row of [spouse_links]: (person1_id, person2_id). *)
Definition SpouseLink : Type := (UUID * UUID)%type.

Record QueueEntry : Type := {
  person_id : UUID;
  priority : Z;
  added_at : Z
}.

(** What the service writes to the log at warning and error level. *)
Inductive LogRecord : Type :=
| WarnInvalidReference (errs : list str)
| WarnInvalidUUID (matched : str) (ref_name : str)
| WarnCannotMerge (keep_id merge_id : UUID)
| WarnDuplicateParents (child_id existing_id new_id : UUID)
| WarnTooManyParents (child_id : UUID) (existing : list UUID) (new_id : UUID)
| WarnValidationErrors (attempt : nat) (errs : list str)
| WarnCouldNotFix (errs : list str)
| ErrorPersonNotFound (pid : UUID).

(** The database session together with the log sink. *)
Record Store : Type := {
  persons : list Person;
  child_links : list ChildLink;
  spouse_links : list SpouseLink;
  creation_queue : list QueueEntry;
  log : list LogRecord
}.

Definition empty_store : Store :=
  {| persons := []; child_links := []; spouse_links := [];
     creation_queue := []; log := [] |}.

Definition with_persons (s : Store) (ps : list Person) : Store :=
  {| persons := ps; child_links := child_links s;
     spouse_links := spouse_links s; creation_queue := creation_queue s;
     log := log s |}.

Definition with_child_links (s : Store) (ls : list ChildLink) : Store :=
  {| persons := persons s; child_links := ls;
     spouse_links := spouse_links s; creation_queue := creation_queue s;
     log := log s |}.

Definition with_spouse_links (s : Store) (ls : list SpouseLink) : Store :=
  {| persons := persons s; child_links := child_links s;
     spouse_links := ls; creation_queue := creation_queue s;
     log := log s |}.

Definition with_queue (s : Store) (q : list QueueEntry) : Store :=
  {| persons := persons s; child_links := child_links s;
     spouse_links := spouse_links s; creation_queue := q;
     log := log s |}.

Definition logging (s : Store) (r : LogRecord) : Store :=
  {| persons := persons s; child_links := child_links s;
     spouse_links := spouse_links s; creation_queue := creation_queue s;
     log := log s ++ [r] |}.

Definition uuid_eqb (a b : UUID) : bool := (a =? b)%N.

(** [session.delete] of the first row a query selects. *)
Fixpoint remove_first {A} (p : A -> bool) (rows : list A) : list A :=
  match rows with
  | [] => []
  | r :: rows' => if p r then rows' else r :: remove_first p rows'
  end.

(** An attribute update of the first row a query selects. *)
Fixpoint update_first {A} (p : A -> bool) (f : A -> A) (rows : list A) : list A :=
  match rows with
  | [] => []
  | r :: rows' => if p r then f r :: rows' else r :: update_first p f rows'
  end.

(** ** PersonRepository *)

Definition has_id (i : UUID) (p : Person) : bool := uuid_eqb (id p) i.

Definition person_create (s : Store) (p : Person) : Store :=
  with_persons s (persons s ++ [p]).

Definition get_by_id (s : Store) (i : UUID) : option Person :=
  find (has_id i) (persons s).

Definition get_by_status (s : Store) (st : PersonStatus) : list Person :=
  filter (fun p => status_eqb (status p) st) (persons s).

(** [update(person_id, **kwargs)]: [f] sets the given attributes. *)
Definition person_update (s : Store) (i : UUID) (f : Person -> Person) : Store :=
  with_persons s (update_first (has_id i) f (persons s)).

Definition person_delete (s : Store) (i : UUID) : Store :=
  with_persons s (remove_first (has_id i) (persons s)).

Definition set_status (st : PersonStatus) (p : Person) : Person :=
  {| id := id p; status := st; given_name := given_name p;
     surname := surname p; maiden_name := maiden_name p;
     nickname := nickname p; gender := gender p;
     birth_date := birth_date p; birth_place := birth_place p;
     death_date := death_date p; death_place := death_place p;
     biography := biography p; generation := generation p |}.

(** ** ChildLinkRepository *)

Definition is_link (parent_id child_id : UUID) (l : ChildLink) : bool :=
  uuid_eqb (fst l) parent_id && uuid_eqb (snd l) child_id.

Definition link_create (s : Store) (parent_id child_id : UUID) : Store :=
  with_child_links s (child_links s ++ [(parent_id, child_id)]).

Definition link_exists (s : Store) (parent_id child_id : UUID) : bool :=
  existsb (is_link parent_id child_id) (child_links s).

Definition get_children (s : Store) (parent_id : UUID) : list UUID :=
  map snd (filter (fun l => uuid_eqb (fst l) parent_id) (child_links s)).

Definition get_parents (s : Store) (child_id : UUID) : list UUID :=
  map fst (filter (fun l => uuid_eqb (snd l) child_id) (child_links s)).

Definition get_parent_count (s : Store) (child_id : UUID) : nat :=
  length (filter (fun l => uuid_eqb (snd l) child_id) (child_links s)).

Definition link_delete (s : Store) (parent_id child_id : UUID) : Store :=
  with_child_links s (remove_first (is_link parent_id child_id) (child_links s)).

(** [reassign_parent]: the old link is deleted; the new one is added
    unless it is already there. *)
Definition reassign_parent (s : Store) (old_parent_id new_parent_id child_id : UUID)
  : Store :=
  if link_exists s new_parent_id child_id then
    link_delete s old_parent_id child_id
  else if link_exists s old_parent_id child_id then
    link_create (link_delete s old_parent_id child_id) new_parent_id child_id
  else s.

Definition reassign_all_parent_links (s : Store) (old_parent_id new_parent_id : UUID)
  : Store :=
  fold_left (fun st child_id => reassign_parent st old_parent_id new_parent_id child_id)
            (get_children s old_parent_id) s.

Definition reassign_child (s : Store) (old_child_id new_child_id parent_id : UUID)
  : Store :=
  if link_exists s parent_id new_child_id then
    link_delete s parent_id old_child_id
  else
    link_create (link_delete s parent_id old_child_id) parent_id new_child_id.

Definition reassign_all_child_links (s : Store) (old_child_id new_child_id : UUID)
  : Store :=
  fold_left (fun st parent_id => reassign_child st old_child_id new_child_id parent_id)
            (get_parents s old_child_id) s.

(** ** SpouseLinkRepository *)

(** The stored orientation: the smaller id first. *)
Definition normalize (a b : UUID) : SpouseLink :=
  if (a <? b)%N then (a, b) else (b, a).

Definition is_spouse_link (l m : SpouseLink) : bool :=
  uuid_eqb (fst m) (fst l) && uuid_eqb (snd m) (snd l).

Definition spouse_create (s : Store) (person1_id person2_id : UUID) : Store :=
  with_spouse_links s (spouse_links s ++ [normalize person1_id person2_id]).

Definition spouse_exists (s : Store) (person1_id person2_id : UUID) : bool :=
  existsb (is_spouse_link (normalize person1_id person2_id)) (spouse_links s).

Definition get_spouses (s : Store) (pid : UUID) : list UUID :=
  map snd (filter (fun l => uuid_eqb (fst l) pid) (spouse_links s))
  ++ map fst (filter (fun l => uuid_eqb (snd l) pid) (spouse_links s)).

Definition _delete_all_for_person (s : Store) (pid : UUID) : Store :=
  with_spouse_links s
    (filter (fun l => negb (uuid_eqb (fst l) pid) && negb (uuid_eqb (snd l) pid))
            (spouse_links s)).

Definition reassign_spouse (new_person_id : UUID) (s : Store) (spouse_id : UUID)
  : Store :=
  if uuid_eqb spouse_id new_person_id then s
  else if spouse_exists s new_person_id spouse_id then s
  else spouse_create s new_person_id spouse_id.

Definition reassign_spouse_links (s : Store) (old_person_id new_person_id : UUID)
  : Store :=
  _delete_all_for_person
    (fold_left (reassign_spouse new_person_id) (get_spouses s old_person_id) s)
    old_person_id.

(** ** QueueRepository *)

Definition queued (pid : UUID) (e : QueueEntry) : bool :=
  uuid_eqb (person_id e) pid.

Definition raise_priority (p : Z) (e : QueueEntry) : QueueEntry :=
  {| person_id := person_id e; priority := p; added_at := added_at e |}.

(** [enqueue]; [now] is the [datetime.utcnow()] a new row is stamped with. *)
Definition enqueue_rows (q : list QueueEntry) (pid : UUID) (prio now : Z)
  : list QueueEntry :=
  match find (queued pid) q with
  | Some existing =>
      if (priority existing <? prio)%Z
      then update_first (queued pid) (raise_priority prio) q
      else q
  | None => q ++ [{| person_id := pid; priority := prio; added_at := now |}]
  end.

Definition enqueue (s : Store) (pid : UUID) (prio now : Z) : Store :=
  with_queue s (enqueue_rows (creation_queue s) pid prio now).

(** [a] sorts strictly before [b] under
    [ORDER BY priority DESC, added_at]. *)
Definition before (a b : QueueEntry) : bool :=
  (priority b <? priority a)%Z
  || ((priority a =? priority b)%Z && (added_at a <? added_at b)%Z).

(** The first row of the ordered query and the table without it; rows
    that the ordering does not separate keep their table order. *)
Fixpoint pick (q : list QueueEntry) : option (QueueEntry * list QueueEntry) :=
  match q with
  | [] => None
  | e :: q' =>
      match pick q' with
      | Some (b, rest) => if before b e then Some (b, e :: rest) else Some (e, q')
      | None => Some (e, q')
      end
  end.

Definition dequeue (s : Store) : option UUID * Store :=
  match pick (creation_queue s) with
  | Some (entry, rest) => (Some (person_id entry), with_queue s rest)
  | None => (None, s)
  end.

End Persistence.

(* ================================================================== *)
(** * services/genealogy_service.py                                    *)
(* ================================================================== *)

Module Service.
Import Py Domain Validation Persistence.

(** [DedupResult], the answer of the deduplication agent. *)
Record DedupResult : Type := {
  is_duplicate : bool;
  matched_person_id : option str;
  confidence : float;
  reasoning : str
}.

Section GenealogyService.

(** The collaborators of the service.  The agents wrap a language model
    and the two searches are SQL text run by the database; they are
    taken as they come. *)

(** [date.today().year] *)
Variable current_year : Z.

(** [uuid.UUID(s)]; [None] stands for its [ValueError]. *)
Variable uuid_of_str : str -> option UUID.

(** [PersonRepository.search_similar(given_name, surname, birth_year,
    maiden_name)] *)
Variable search_similar :
  Store -> str -> str -> option Z -> option str -> list Person.

(** [PersonRepository.search_by_given_name_and_birth_year] *)
Variable search_by_given_name_and_birth_year :
  Store -> str -> option Z -> list Person.

(** [DedupAgent.check_duplicate]: the new reference, its generation and
    the person who mentions it make up the new summary; the candidate
    summaries are built from the candidate rows and the store. *)
Variable check_duplicate :
  Store -> PersonReference -> Z -> option Person -> list Person -> DedupResult.

(** [CorrectionAgent.correct], at its n-th call of a correction loop. *)
Variable correct : nat -> str -> ExtractedData -> list str -> ExtractedData.

Variable validator : Validator.

(** [settings.max_correction_attempts] *)
Variable max_correction_attempts : Z.

(** ** _validate_and_correct *)

(** What a run of the loop did: the data and validation it returns, and
    how often it called the correction agent and the validator. *)
Record Corrected : Type := {
  data : ExtractedData;
  validation : ValidationResult;
  correction_calls : nat;
  validation_calls : nat;
  correction_log : list LogRecord
}.

(** The body of [for attempt in range(max_correction_attempts)]. *)
Fixpoint correction_loop (attempts : list nat) (biography : str)
         (st : Corrected) : Corrected :=
  match attempts with
  | [] =>
      if negb (is_valid (validation st))
      then {| data := data st; validation := validation st;
              correction_calls := correction_calls st;
              validation_calls := validation_calls st;
              correction_log :=
                correction_log st ++ [WarnCouldNotFix (errors (validation st))] |}
      else st
  | attempt :: rest =>
      let current_data :=
        correct attempt biography (data st) (errors (validation st)) in
      let validation' := validate_extracted_data validator current_data in
      let st' :=
        {| data := current_data; validation := validation';
           correction_calls := S (correction_calls st);
           validation_calls := S (validation_calls st);
           correction_log :=
             correction_log st
             ++ [WarnValidationErrors (S attempt) (errors (validation st))] |} in
      if is_valid validation' then st' else correction_loop rest biography st'
  end.

Definition _validate_and_correct (biography : str) (extracted : ExtractedData)
  : Corrected :=
  let validation := validate_extracted_data validator extracted in
  let st := {| data := extracted; validation := validation;
               correction_calls := 0; validation_calls := 1;
               correction_log := [] |} in
  if is_valid validation then st
  else correction_loop (seq 0 (Z.to_nat max_correction_attempts)) biography st.

(** ** _resolve_person_reference *)

Definition full_name (p : Person) : str :=
  given_name p ++ lit " " ++ surname p.

(** Lines 684-688: the broader candidates not yet in the list. *)
Fixpoint add_broader (candidates broader : list Person) : list Person :=
  match broader with
  | [] => candidates
  | bc :: rest =>
      if existsb (has_id (id bc)) candidates
      then add_broader candidates rest
      else add_broader (candidates ++ [bc]) rest
  end.

(** Lines 705-716: the loop over the candidate's spouses. *)
Fixpoint spouse_bump (s : Store) (ref_surname : str) (spouse_ids : list UUID)
         (base_score : float) : float :=
  match spouse_ids with
  | [] => base_score
  | spouse_id :: rest =>
      match get_by_id s spouse_id with
      | Some spouse =>
          if str_eqb (lower (surname spouse)) (lower ref_surname)
          then Dedup.py_max base_score 0.6
          else spouse_bump s ref_surname rest base_score
      | None => spouse_bump s ref_surname rest base_score
      end
  end.

(** Lines 695-716: the score of one candidate. *)
Definition candidate_score (s : Store) (reference : PersonReference)
           (ref_given ref_surname : str) (candidate : Person) : result float :=
  base_score <- Dedup.heuristic_match_score
                  (name reference) (approximate_birth_year reference)
                  (full_name candidate) (year_of (birth_date candidate)) ;;
  if PrimFloat.ltb base_score 0.5
     && str_eqb (lower (given_name candidate)) (lower ref_given)
  then Ok (spouse_bump s ref_surname (get_spouses s (id candidate)) base_score)
  else Ok base_score.

(** Lines 694-719: the candidates that pass the threshold. *)
Fixpoint good_candidates (s : Store) (reference : PersonReference)
         (ref_given ref_surname : str) (candidates : list Person)
  : result (list (Person * float)) :=
  match candidates with
  | [] => Ok []
  | candidate :: rest =>
      base_score <- candidate_score s reference ref_given ref_surname candidate ;;
      good <- good_candidates s reference ref_given ref_surname rest ;;
      if PrimFloat.leb 0.5 base_score
      then Ok ((candidate, base_score) :: good)
      else Ok good
  end.

(** [list.sort(key=score, reverse=True)]: stable, best score first. *)
Fixpoint insert_desc (x : Person * float) (l : list (Person * float))
  : list (Person * float) :=
  match l with
  | [] => [x]
  | y :: l' =>
      if PrimFloat.ltb (snd y) (snd x) then x :: l else y :: insert_desc x l'
  end.

Definition sort_desc (l : list (Person * float)) : list (Person * float) :=
  fold_left (fun acc x => insert_desc x acc) l [].

(** Lines 813-830: no match, create the pending record.  [fresh] is the
    [uuid4()] the new [Person] gets. *)
Definition create_pending (s : Store) (reference : PersonReference)
           (parsed : Dedup.ParsedName) (generation : Z) (fresh : UUID)
  : result (option UUID * Store) :=
  birth <- (if truthy_int (approximate_birth_year reference) then
              match approximate_birth_year reference with
              | Some y => d <- date_jan1 y ;; Ok (Some d)
              | None => Ok None
              end
            else Ok None) ;;
  let new_person :=
    {| id := fresh; status := PENDING;
       given_name := Dedup.given_name parsed;
       surname := Dedup.surname parsed;
       maiden_name := Dedup.maiden_name parsed;
       nickname := None;
       gender := ref_gender reference;
       birth_date := birth; birth_place := None;
       death_date := None; death_place := None;
       biography := None; generation := generation |} in
  Ok (Some fresh, person_create s new_person).

(** Lines 671-719: the two searches and the heuristic filter. *)
Definition heuristic_candidates (s : Store) (reference : PersonReference)
           (parsed : Dedup.ParsedName) : result (list (Person * float)) :=
  let given := Dedup.given_name parsed in
  let sur := Dedup.surname parsed in
  let maiden := Dedup.maiden_name parsed in
  let candidates :=
    search_similar s given sur (approximate_birth_year reference) maiden in
  let broader_candidates :=
    search_by_given_name_and_birth_year s given
      (approximate_birth_year reference) in
  let candidates := add_broader candidates broader_candidates in
  good_candidates s reference given sur candidates.

(** Lines 722-780: the best five candidates go to the deduplication
    agent. *)
Definition ask_dedup_agent (s : Store) (reference : PersonReference)
           (generation : Z) (new_person : option Person)
           (good : list (Person * float)) : DedupResult :=
  let good := sort_desc good in
  check_duplicate s reference generation new_person (map fst (firstn 5 good)).

Definition _resolve_person_reference (s : Store) (reference : PersonReference)
           (generation : Z) (new_person : option Person) (fresh : UUID)
  : result (option UUID * Store) :=
  let validation := validate_person_reference current_year reference in
  if negb (is_valid validation) then
    Ok (None, logging s (WarnInvalidReference (errors validation)))
  else
    parsed <- Dedup.parse_name (name reference) ;;
    good <- heuristic_candidates s reference parsed ;;
    match good with
    | [] => create_pending s reference parsed generation fresh
    | _ :: _ =>
        let dedup_result :=
          ask_dedup_agent s reference generation new_person good in
        if is_duplicate dedup_result
           && truthy_str (matched_person_id dedup_result)
        then
          match matched_person_id dedup_result with
          | Some text =>
              match uuid_of_str text with
              | Some matched_id =>
                  (* [_evaluate_shared_events] writes events and notes
                     only, two tables this store does not hold *)
                  Ok (Some matched_id, s)
              | None =>
                  create_pending
                    (logging s (WarnInvalidUUID text (name reference)))
                    reference parsed generation fresh
              end
          | None => create_pending s reference parsed generation fresh
          end
        else create_pending s reference parsed generation fresh
    end.

(** ** _merge_persons *)

Definition missing (o : option str) : bool := negb (truthy_str o).

Definition no_date (o : option date) : bool :=
  match o with Some _ => false | None => true end.

Definition has_date (o : option date) : bool := negb (no_date o).

(** The [updates] dictionary is non-empty. *)
Definition has_updates (keep_person merge_person : Person) : bool :=
  (missing (maiden_name keep_person) && truthy_str (maiden_name merge_person))
  || (missing (birth_place keep_person) && truthy_str (birth_place merge_person))
  || (no_date (death_date keep_person) && has_date (death_date merge_person))
  || (missing (death_place keep_person) && truthy_str (death_place merge_person))
  || (missing (biography keep_person) && truthy_str (biography merge_person)).

(** [person_repo.update(keep_id, **updates)] on the row. *)
Definition apply_updates (keep_person merge_person row : Person) : Person :=
  let take_bio :=
    missing (biography keep_person) && truthy_str (biography merge_person) in
  {| id := id row;
     status := if take_bio then status merge_person else status row;
     given_name := given_name row;
     surname := surname row;
     maiden_name :=
       if missing (maiden_name keep_person) && truthy_str (maiden_name merge_person)
       then maiden_name merge_person else maiden_name row;
     nickname := nickname row;
     gender := gender row;
     birth_date := birth_date row;
     birth_place :=
       if missing (birth_place keep_person) && truthy_str (birth_place merge_person)
       then birth_place merge_person else birth_place row;
     death_date :=
       if no_date (death_date keep_person) && has_date (death_date merge_person)
       then death_date merge_person else death_date row;
     death_place :=
       if missing (death_place keep_person) && truthy_str (death_place merge_person)
       then death_place merge_person else death_place row;
     biography := if take_bio then biography merge_person else biography row;
     generation := generation row |}.

Definition _merge_persons (s : Store) (keep_id merge_id : UUID) : Store :=
  match get_by_id s keep_id, get_by_id s merge_id with
  | Some keep_person, Some merge_person =>
      let s := reassign_all_parent_links s merge_id keep_id in
      let s := reassign_all_child_links s merge_id keep_id in
      let s := reassign_spouse_links s merge_id keep_id in
      let s := if has_updates keep_person merge_person
               then person_update s keep_id (apply_updates keep_person merge_person)
               else s in
      (* the queue is left as it is *)
      person_delete s merge_id
  | _, _ => logging s (WarnCannotMerge keep_id merge_id)
  end.

(** ** _check_and_merge_duplicate_parents *)

(** Some spouse of [pid] has the surname [sn] (compared lower-cased). *)
Definition spouse_with_surname (s : Store) (pid : UUID) (sn : str) : bool :=
  existsb (fun spouse_id =>
             match get_by_id s spouse_id with
             | Some spouse => str_eqb (lower (surname spouse)) (lower sn)
             | None => false
             end)
          (get_spouses s pid).

(** Lines 1231-1271. *)
Definition surnames_match (s : Store) (existing_parent new_parent : Person)
           (existing_parsed new_parsed : Dedup.ParsedName) : bool :=
  let direct :=
    str_eqb (lower (Dedup.surname existing_parsed))
            (lower (Dedup.surname new_parsed)) in
  let by_existing_maiden :=
    match maiden_name existing_parent with
    | Some m => nonempty m
                && str_eqb (lower m) (lower (Dedup.surname new_parsed))
    | None => false
    end in
  let by_new_maiden :=
    match maiden_name new_parent with
    | Some m => nonempty m
                && str_eqb (lower m) (lower (Dedup.surname existing_parsed))
    | None => false
    end in
  if direct || by_existing_maiden || by_new_maiden then true
  else if spouse_with_surname s (id existing_parent) (Dedup.surname new_parsed)
  then true
  else spouse_with_surname s (id new_parent) (Dedup.surname existing_parsed).

(** Lines 1275-1278. *)
Definition birth_year_match (existing_parent new_parent : Person) : bool :=
  match birth_date existing_parent, birth_date new_parent with
  | Some e, Some n => (Z.abs (year e - year n) <=? 5)%Z
  | _, _ => true
  end.

(** The body of the loop over the existing parents, up to the merge:
    the row of the existing parent if it counts as a duplicate of the new
    parent. *)
Definition duplicate_parent (s : Store) (new_parent : Person)
           (new_parsed : Dedup.ParsedName) (existing_parent_id : UUID)
  : result (option Person) :=
  match get_by_id s existing_parent_id with
  | None => Ok None
  | Some existing_parent =>
      if negb (gender_eqb (gender existing_parent) (gender new_parent))
      then Ok None
      else
        existing_parsed <- Dedup.parse_name (full_name existing_parent) ;;
        if negb (str_eqb (lower (Dedup.given_name existing_parsed))
                         (lower (Dedup.given_name new_parsed)))
        then Ok None
        else if surnames_match s existing_parent new_parent
                               existing_parsed new_parsed
                && birth_year_match existing_parent new_parent
        then Ok (Some existing_parent)
        else Ok None
  end.

(** The first existing parent that passes the test. *)
Fixpoint find_duplicate_parent (s : Store) (new_parent : Person)
         (new_parsed : Dedup.ParsedName) (existing_parent_ids : list UUID)
  : result (option (UUID * Person)) :=
  match existing_parent_ids with
  | [] => Ok None
  | existing_parent_id :: rest =>
      dup <- duplicate_parent s new_parent new_parsed existing_parent_id ;;
      match dup with
      | Some existing_parent => Ok (Some (existing_parent_id, existing_parent))
      | None => find_duplicate_parent s new_parent new_parsed rest
      end
  end.

Definition _check_and_merge_duplicate_parents (s : Store)
           (child_id new_parent_id : UUID) : result (UUID * Store) :=
  let existing_parent_ids := get_parents s child_id in
  if (length existing_parent_ids <? 2)%nat then Ok (new_parent_id, s)
  else
    match get_by_id s new_parent_id with
    | None => Ok (new_parent_id, s)
    | Some new_parent =>
        new_parsed <- Dedup.parse_name (full_name new_parent) ;;
        found <- find_duplicate_parent s new_parent new_parsed
                   existing_parent_ids ;;
        match found with
        | Some (existing_parent_id, existing_parent) =>
            let s := logging s (WarnDuplicateParents child_id
                                  existing_parent_id new_parent_id) in
            if truthy_str (biography new_parent)
               && negb (truthy_str (biography existing_parent))
            then Ok (new_parent_id,
                     _merge_persons s new_parent_id existing_parent_id)
            else Ok (existing_parent_id,
                     _merge_persons s existing_parent_id new_parent_id)
        | None =>
            Ok (new_parent_id,
                logging s (WarnTooManyParents child_id existing_parent_ids
                             new_parent_id))
        end
    end.

(** ** _process_references, the parent branch *)

(** Lines 569-586, for a resolved parent id; [now] stamps the queue entry. *)
Definition link_parent (s : Store) (person_id parent_id : UUID) (now : Z)
  : result Store :=
  if link_exists s parent_id person_id then Ok s
  else
    '(parent_id, s, skip) <-
      (if (2 <=? get_parent_count s person_id)%nat then
         '(parent_id, s) <- _check_and_merge_duplicate_parents s person_id parent_id ;;
         Ok (parent_id, s, link_exists s parent_id person_id)
       else Ok (parent_id, s, false)) ;;
    if skip then Ok s
    else
      let s := link_create s parent_id person_id in
      match get_by_id s parent_id with
      | Some parent =>
          if status_eqb (status parent) PENDING
          then Ok (person_update (enqueue s parent_id 1 now) parent_id
                                 (set_status QUEUED))
          else Ok s
      | None => Ok s
      end.

(** Lines 565-586: one iteration of the loop over [extracted.parents]. *)
Definition process_parent_ref (s : Store) (person : Person)
           (parent_ref : PersonReference) (fresh : UUID) (now : Z)
  : result Store :=
  '(parent_id, s) <- _resolve_person_reference s parent_ref
                       (generation person - 1) (Some person) fresh ;;
  match parent_id with
  | Some parent_id => link_parent s (id person) parent_id now
  | None => Ok s
  end.

(** ** process_next *)

(** The rest of the pipeline, which [process_next] hands over to. *)
Variable _forest_fire_sample : list Person -> Person.
Variable _create_seed_person : Store -> result (Person * Store).
Variable _process_person : Store -> UUID -> result (Person * Store).

Definition process_next (s : Store) : result (option Person * Store) :=
  let '(dequeued, s) := dequeue s in
  let continue_with (s : Store) (pid : UUID) :=
    match get_by_id s pid with
    | None => Ok (None, logging s (ErrorPersonNotFound pid))
    | Some _ =>
        let s := person_update s pid (set_status PROCESSING) in
        '(p, s) <- _process_person s pid ;;
        Ok (Some p, s)
    end in
  match dequeued with
  | Some pid => continue_with s pid
  | None =>
      match get_by_status s PENDING with
      | [] =>
          '(p, s) <- _create_seed_person s ;;
          Ok (Some p, s)
      | pending => continue_with s (id (_forest_fire_sample pending))
      end
  end.

End GenealogyService.
End Service.

(* ================================================================== *)
(** * Vocabulary of the properties                                     *)
(* ================================================================== *)

Unset Implicit Arguments.

(** ** The creation queue *)

Module QueueSpec.
Import Py Domain Persistence.

(** At most one entry per person id. *)
Definition queue_unique (s : Store) : Prop :=
  NoDup (map person_id (creation_queue s)).

(** The priority a person is queued with, if queued. *)
Definition queued_priority (s : Store) (pid : UUID) : option Z :=
  option_map priority (find (queued pid) (creation_queue s)).

(** Enqueue times do not decrease along the table. *)
Definition time_ordered (s : Store) : Prop :=
  StronglySorted (fun a b => (added_at a <= added_at b)%Z) (creation_queue s).

(** The shape of a dequeue. *)
Definition dequeues (s : Store) (pid : UUID) (s' : Store) : Prop :=
  exists l1 e l2,
    creation_queue s = l1 ++ e :: l2
    /\ person_id e = pid
    /\ s' = with_queue s (l1 ++ l2)
    /\ Forall (fun x => before e x = true) l1
    /\ Forall (fun x => before x e = false) l2.

(** A queue of three: person 1 at priority 1, persons 2 and 3 at
    priority 5, enqueued in that order. *)
Definition queue_demo : Store :=
  with_queue empty_store
    [ {| person_id := 1; priority := 1; added_at := 10 |};
      {| person_id := 2; priority := 5; added_at := 20 |};
      {| person_id := 3; priority := 5; added_at := 30 |} ]%N.

End QueueSpec.

(** ** The heuristic match score, after the words of its specification *)

Module ScoreSpec.
Import Py Dedup.

(** Two strings are the same, case-insensitively. *)
Definition same_text (a b : str) : bool := str_eqb (lower a) (lower b).

(** Sets of strings, the strings compared by [same]: membership, a
    common member, the same members. *)
Definition among (same : str -> str -> bool) (x : str) (xs : list str) : bool :=
  existsb (same x) xs.

Definition share (same : str -> str -> bool) (xs ys : list str) : bool :=
  existsb (fun x => among same x ys) xs.

Definition same_set (same : str -> str -> bool) (xs ys : list str) : bool :=
  forallb (fun x => among same x ys) xs
  && forallb (fun y => among same y xs) ys.

(** The suffixes a parsed name carries. *)
Definition suffix_set (p : ParsedName) : list str :=
  match suffixes p with Some l => l | None => [] end.

Definition carries_suffixes (p : ParsedName) : bool :=
  match suffix_set p with [] => false | _ :: _ => true end.

(** The surname-set: the surname and the maiden name, if there is one. *)
Definition surname_set (p : ParsedName) : list str :=
  surname p
  :: match maiden_name p with Some (c :: m) => [c :: m] | _ => [] end.

(** The name tokens: given name, middle names, surname. *)
Definition name_tokens (p : ParsedName) : list str :=
  given_name p :: middle_names p ++ [surname p].

(** Both names carry suffixes and the suffix sets differ, the suffixes
    compared by [same]. *)
Definition suffixes_differ_by (same : str -> str -> bool) (a b : ParsedName)
  : bool :=
  carries_suffixes a && carries_suffixes b
  && negb (same_set same (suffix_set a) (suffix_set b)).

(** Case-insensitively, as all the rules. *)
Definition suffixes_differ (a b : ParsedName) : bool :=
  suffixes_differ_by same_text a b.

(** Given names match. *)
Definition given_names_match (a b : ParsedName) : bool :=
  same_text (given_name a) (given_name b).

(** The surname-sets intersect. *)
Definition surname_sets_intersect (a b : ParsedName) : bool :=
  share same_text (surname_set a) (surname_set b).

(** Either party's surname appears among the other's name tokens. *)
Definition surname_among_tokens (a b : ParsedName) : bool :=
  among same_text (surname a) (name_tokens b)
  || among same_text (surname b) (name_tokens a).

(** Both have middle names and the sets of them intersect. *)
Definition middle_names_intersect (a b : ParsedName) : bool :=
  match middle_names a, middle_names b with
  | _ :: _, _ :: _ => share same_text (middle_names a) (middle_names b)
  | _, _ => false
  end.

Definition name_contribution (a b : ParsedName) : float :=
  if given_names_match a b then
    (0.25
     + (if surname_sets_intersect a b then 0.25
        else if surname_among_tokens a b then 0.20
        else 0)
     + (if middle_names_intersect a b then 0.10 else 0))%float
  else 0%float.

(** The year contribution: both years given, and how far apart. *)
Definition year_contribution (y1 y2 : option Z) : float :=
  match y1, y2 with
  | Some a, Some b =>
      if (Z.abs (a - b) =? 0)%Z then 0.5%float
      else if (Z.abs (a - b) <=? 2)%Z then 0.45%float
      else if (Z.abs (a - b) <=? 5)%Z then 0.3%float
      else 0%float
  | _, _ => 0%float
  end.

(** Clamping to [[0, 1]]. *)
Definition clamp01 (x : float) : float :=
  if PrimFloat.ltb x 0 then 0%float
  else if PrimFloat.ltb 1 x then 1%float
  else x.

(** The score of two parsed names and birth years, the suffixes
    compared by [same]. *)
Definition score_by (same : str -> str -> bool) (a b : ParsedName)
           (year1 year2 : option Z) : float :=
  if suffixes_differ_by same a b then 0%float
  else clamp01 (name_contribution a b + year_contribution year1 year2)%float.

(** The reference definition: every rule case-insensitive. *)
Definition reference_score (name1 : str) (year1 : option Z)
           (name2 : str) (year2 : option Z) : result float :=
  a <- parse_name name1 ;;
  b <- parse_name name2 ;;
  Ok (score_by same_text a b year1 year2).

(** A birth year the scorer takes as given: present and not 0. *)
Definition known_year (y : option Z) : option Z :=
  match y with
  | Some 0%Z => None
  | _ => y
  end.

(** The reference definition as the code reads it: the suffixes are
    compared as they are written, and a birth year of 0 is no birth
    year. *)
Definition amended_score (name1 : str) (year1 : option Z)
           (name2 : str) (year2 : option Z) : result float :=
  a <- parse_name name1 ;;
  b <- parse_name name2 ;;
  Ok (score_by str_eqb a b (known_year year1) (known_year year2)).

(** The case of the suffixes does not matter to the comparison of the
    two suffix sets. *)
Definition suffix_case_irrelevant (a b : ParsedName) : Prop :=
  same_set str_eqb (suffix_set a) (suffix_set b)
  = same_set same_text (suffix_set a) (suffix_set b).

(** The value of the name part in terms of what it tests. *)
Definition name_value (given sur tok1 tok2 mid : bool) : float :=
  if given then
    let s := (0.0 + 0.25)%float in
    let s := if sur then (s + 0.25)%float
             else if tok1 then (s + 0.2)%float
             else if tok2 then (s + 0.2)%float
             else s in
    if mid then (s + 0.1)%float else s
  else 0.0%float.

(** The value of the year part in terms of what it tests. *)
Definition year_value (known same within2 within5 : bool) : float :=
  if known then
    if same then 0.5%float
    else if within2 then 0.45%float
    else if within5 then 0.3%float
    else 0.0%float
  else 0.0%float.

End ScoreSpec.

(** ** Validation *)

Module ValidationSpec.
Import Py Domain Validation.

(** A message mentions a phrase: the phrase occurs in it. *)
Definition mentions (phrase : string) (msg : str) : Prop :=
  exists before after, msg = before ++ lit phrase ++ after.

(** Some message of the list mentions the phrase. *)
Definition some_mentions (phrase : string) (msgs : list str) : Prop :=
  exists msg, In msg msgs /\ mentions phrase msg.

(** The subject's birth and death years as the validator reads them. *)
Definition subject_birth_year (data : ExtractedData) : option Z :=
  _get_year (x_birth_date data) (x_birth_year data).

Definition subject_death_year (data : ExtractedData) : option Z :=
  _get_year (x_death_date data) (x_death_year data).

(** The validator of the default settings. *)
Definition default_validator : Validator :=
  {| min_parent_age := 14; max_parent_age := 60; max_lifespan := 120 |}.

Definition reference_to (who : string) (rel : RelationshipType)
           (born : option Z) : PersonReference :=
  {| name := lit who; relationship := rel; approximate_birth_year := born;
     ref_gender := MALE; context := None |}.

(** John Smith, with the given birth and death dates and parents. *)
Definition john_smith (birth death : option date)
           (parents : list PersonReference) : ExtractedData :=
  {| x_given_name := lit "John"; x_surname := lit "Smith";
     x_maiden_name := None; x_gender := MALE;
     x_birth_date := birth; x_birth_place := None; x_birth_year := None;
     x_death_date := death; x_death_place := None; x_death_year := None;
     parents := parents; children := []; spouses := []; siblings := [];
     other_relatives := []; events := []; notes := [] |}.

(** A check only ever appends to the two lists. *)
Definition grows (r r' : report) : Prop :=
  incl (fst r) (fst r') /\ incl (snd r) (snd r').

(** The report of a whole validation and the stages it goes through. *)
Definition after_lifespan_of v (birth death : option Z) : report :=
  check_lifespan v birth death ([], []).

Definition after_lifespan v data : report :=
  after_lifespan_of v (subject_birth_year data) (subject_death_year data).

Definition after_parents v data : report :=
  for_each (parents data)
    (fun parent =>
       _validate_parent_child v (name parent) (approximate_birth_year parent)
         (subject_birth_year data) None)
    (after_lifespan v data).

Definition after_children v data : report :=
  for_each (children data)
    (fun child =>
       _validate_parent_child v (subject_name data) (subject_birth_year data)
         (approximate_birth_year child) (subject_death_year data))
    (after_parents v data).

Definition final_report v data : report :=
  for_each (events data)
    (check_event (subject_birth_year data) (subject_death_year data))
    (for_each (spouses data) (check_spouse (subject_birth_year data))
       (after_children v data)).

End ValidationSpec.

(** ** The correction loop *)

Module CorrectionSpec.
Import Py Domain Validation Persistence Service.

Section Loop.
Variable correct : nat -> str -> ExtractedData -> list str -> ExtractedData.
Variable validator : Validator.
Variable biography : str.
Variable extracted : ExtractedData.

(** The facts after [n] corrections: each correction is the agent's
    answer to the facts before it and their validation errors. *)
Fixpoint corrected (n : nat) : ExtractedData :=
  match n with
  | O => extracted
  | S k =>
      correct k biography (corrected k)
        (errors (validate_extracted_data validator (corrected k)))
  end.

Definition valid_after (n : nat) : bool :=
  is_valid (validate_extracted_data validator (corrected n)).

(** The state of the loop before attempt number [start]. *)
Definition at_attempt (start : nat) (st : Corrected) : Prop :=
  data st = corrected start
  /\ validation st = validate_extracted_data validator (corrected start)
  /\ correction_calls st = start
  /\ validation_calls st = S start.

End Loop.

(** A correction agent that changes nothing, and facts that do not
    validate: born 1950, died 1940. *)
Definition idle_agent (n : nat) (biography : str) (d : ExtractedData)
           (errs : list str) : ExtractedData := d.

Definition bad_facts : ExtractedData :=
  ValidationSpec.john_smith (Some (mkdate 1950 1 1)) (Some (mkdate 1940 1 1)) [].

End CorrectionSpec.

(** ** Reference resolution *)

Module ResolveSpec.
Import Py Domain Validation Persistence Service.

(** A name that is empty or consists of whitespace only. *)
Definition blank (n : str) : Prop := Forall (fun c => isspace c = true) n.

(** The reference is dropped: resolution returns no person, and the
    person table is as it was. *)
Definition dropped (s : Store) (out : result (option UUID * Store)) : Prop :=
  exists s', out = Ok (None, s') /\ persons s' = persons s.

(** A birth year resolution can work with: none, or a year of the
    calendar up to the current one. *)
Definition plausible_year (current_year : Z) (y : option Z) : Prop :=
  match y with
  | Some y => (1 <= y <= current_year)%Z
  | None => True
  end.

(** January 1st of an approximate birth year. *)
Definition birth_of (y : option Z) : option date :=
  option_map (fun y => mkdate y 1 1) y.

(** The record created for a reference that matched nobody. *)
Definition pending_person (reference : PersonReference)
           (parsed : Dedup.ParsedName) (generation : Z) (fresh : UUID) : Person :=
  {| id := fresh; status := PENDING;
     given_name := Dedup.given_name parsed;
     surname := Dedup.surname parsed;
     maiden_name := Dedup.maiden_name parsed;
     nickname := None;
     gender := ref_gender reference;
     birth_date := birth_of (approximate_birth_year reference);
     birth_place := None; death_date := None; death_place := None;
     biography := None; generation := generation |}.

(** The reference without its birth year. *)
Definition without_year (reference : PersonReference) : PersonReference :=
  {| name := name reference; relationship := relationship reference;
     approximate_birth_year := None; ref_gender := ref_gender reference;
     context := context reference |}.

(** Resolution returns a person: a stored person the agent named, the
    store as it was; or the new person, under the fresh id, as one more
    row of the person table, the links and the queue as they were. *)
Definition returns_person (s : Store) (fresh : UUID) (new : Person)
           (out : result (option UUID * Store)) : Prop :=
  (exists matched_id, out = Ok (Some matched_id, s))
  \/ exists s', out = Ok (Some fresh, s')
                /\ persons s' = persons s ++ [new]
                /\ child_links s' = child_links s
                /\ spouse_links s' = spouse_links s
                /\ creation_queue s' = creation_queue s.

(** The deduplication agent's answer is not a match. *)
Definition no_match (r : DedupResult) : Prop :=
  is_duplicate r && truthy_str (matched_person_id r) = false.

(** Collaborators for closed examples: searches that find nobody, an
    agent that never sees a duplicate, an agent that always names the
    same id, and a [UUID] parser that knows one spelling. *)
Definition search_nobody (s : Store) (given sur : str) (y : option Z)
           (maiden : option str) : list Person := [].

Definition search_nobody_broad (s : Store) (given : str) (y : option Z)
  : list Person := [].

(** A search that returns every stored person. *)
Definition search_everybody (s : Store) (given sur : str) (y : option Z)
           (maiden : option str) : list Person := persons s.

Definition never_duplicate (s : Store) (r : PersonReference) (g : Z)
           (p : option Person) (cands : list Person) : DedupResult :=
  {| is_duplicate := false; matched_person_id := None;
     confidence := 1; reasoning := lit "No candidates to compare against" |}.

Definition always_names (text : string) (s : Store) (r : PersonReference)
           (g : Z) (p : option Person) (cands : list Person) : DedupResult :=
  {| is_duplicate := true; matched_person_id := Some (lit text);
     confidence := 1; reasoning := lit "same person" |}.

Definition uuid_of_demo (text : str) : option UUID :=
  if str_eqb text (lit "00000000-0000-0000-0000-000000000001")
  then Some 1%N else None.

(** The subject John Smith, generation 0, complete, with id 1. *)
Definition john : Person :=
  {| id := 1%N; status := COMPLETE;
     given_name := lit "John"; surname := lit "Smith";
     maiden_name := None; nickname := None; gender := MALE;
     birth_date := Some (mkdate 1950 1 1); birth_place := None;
     death_date := None; death_place := None;
     biography := Some (lit "John Smith was born in 1950.");
     generation := 0 |}.

Definition john_alone : Store := person_create empty_store john.

Definition william_ref : PersonReference :=
  ValidationSpec.reference_to "William Smith" PARENT (Some 1920%Z).

(** A John Smith born in 1950, mentioned as a sibling. *)
Definition john_ref : PersonReference :=
  ValidationSpec.reference_to "John Smith" SIBLING (Some 1950%Z).

End ResolveSpec.

(** ** Merging *)

Module MergeSpec.
Import Py Domain Persistence Service.

(** The parents and children a link table records for a person. *)
Definition parents_of (c : UUID) (links : list ChildLink) : list UUID :=
  map fst (filter (fun l => uuid_eqb (snd l) c) links).

Definition children_of (p : UUID) (links : list ChildLink) : list UUID :=
  map snd (filter (fun l => uuid_eqb (fst l) p) links).

(** [reassign_parent] and the loop body of [reassign_all_child_links],
    as functions of the link table. *)
Definition move_parent (old_parent new_parent : UUID) (links : list ChildLink)
           (child : UUID) : list ChildLink :=
  if existsb (is_link new_parent child) links then
    remove_first (is_link old_parent child) links
  else if existsb (is_link old_parent child) links then
    remove_first (is_link old_parent child) links ++ [(new_parent, child)]
  else links.

Definition move_child (old_child new_child : UUID) (links : list ChildLink)
           (parent : UUID) : list ChildLink :=
  if existsb (is_link parent new_child) links then
    remove_first (is_link parent old_child) links
  else
    remove_first (is_link parent old_child) links ++ [(parent, new_child)].

(** The link table after [reassign_all_parent_links] and then
    [reassign_all_child_links] from [drop] to [keep]. *)
Definition parents_moved (keep drop : UUID) (links : list ChildLink)
  : list ChildLink :=
  fold_left (move_parent drop keep) (children_of drop links) links.

Definition links_merged (keep drop : UUID) (links : list ChildLink)
  : list ChildLink :=
  let moved := parents_moved keep drop links in
  fold_left (move_child drop keep) (parents_of drop moved) moved.

(** No row of the two link tables mentions the person. *)
Definition unreferenced (s : Store) (pid : UUID) : Prop :=
  (forall l, In l (child_links s) -> fst l <> pid /\ snd l <> pid)
  /\ (forall l, In l (spouse_links s) -> fst l <> pid /\ snd l <> pid).

(** Some existing parent of the child passes the duplicate test against
    the candidate. *)
Definition duplicate_detected (s : Store) (child_id new_parent_id : UUID) : Prop :=
  exists new_parent new_parsed found,
    get_by_id s new_parent_id = Some new_parent
    /\ Dedup.parse_name (full_name new_parent) = Ok new_parsed
    /\ find_duplicate_parent s new_parent new_parsed (get_parents s child_id)
       = Ok (Some found).

(** Every id of the person table occurs once. *)
Definition persons_unique (s : Store) : Prop := NoDup (map id (persons s)).

(** No child has more than two distinct parent ids. *)
Definition at_most_two_parents (s : Store) : Prop :=
  forall c, length (nodup N.eq_dec (get_parents s c)) <= 2.

(** A sequence of resolved parent ids goes through the parent branch,
    one after the other; each comes with the time of its step. *)
Fixpoint link_parents (s : Store) (child_id : UUID)
         (candidates : list (UUID * Z)) : result Store :=
  match candidates with
  | [] => Ok s
  | (candidate, now) :: rest =>
      s' <- link_parent s child_id candidate now ;;
      link_parents s' child_id rest
  end.

(** Along the sequence no candidate is the child itself, and whenever a
    candidate would be a third parent, a duplicate is detected. *)
Fixpoint reconcilable (s : Store) (child_id : UUID)
         (candidates : list (UUID * Z)) : Prop :=
  match candidates with
  | [] => True
  | (candidate, now) :: rest =>
      candidate <> child_id
      /\ (get_parent_count s child_id = 2 ->
          link_exists s candidate child_id = false ->
          duplicate_detected s child_id candidate)
      /\ forall s', link_parent s child_id candidate now = Ok s' ->
                    reconcilable s' child_id rest
  end.

(** A person record with a name, a gender and nothing else. *)
Definition person_named (i : UUID) (given sur : string) (g : Gender)
           (bio : option str) : Person :=
  {| id := i; status := PENDING; given_name := lit given; surname := lit sur;
     maiden_name := None; nickname := None; gender := g;
     birth_date := None; birth_place := None; death_date := None;
     death_place := None; biography := bio; generation := 0 |}.

(** A family: child 1 with the parents 2 (Mary Jones) and 3 (Tom Jones);
    a second record 4 of Mary Jones; 2 has the parents 5 and 6, and 4
    has the parents 7 and 8.  Nobody has more than two parents. *)
Definition family : Store :=
  {| persons :=
       [ person_named 1 "Ann" "Jones" FEMALE (Some (lit "Ann's life."));
         person_named 2 "Mary" "Jones" FEMALE None;
         person_named 3 "Tom" "Jones" MALE None;
         person_named 4 "Mary" "Jones" FEMALE None;
         person_named 5 "Eve" "Hill" FEMALE None;
         person_named 6 "Sam" "Hill" MALE None;
         person_named 7 "Eva" "Hill" FEMALE None;
         person_named 8 "Samuel" "Hill" MALE None ]%N;
     child_links :=
       [ (2, 1); (3, 1); (5, 2); (6, 2); (7, 4); (8, 4) ]%N;
     spouse_links := [ (2, 3) ]%N;
     creation_queue :=
       [ {| person_id := 4%N; priority := 1; added_at := 10 |} ];
     log := [] |}.

(** Somebody for a sampler to return. *)
Definition john_doe : Person := person_named 0%N "John" "Doe" MALE None.

End MergeSpec.

(* ================================================================== *)
(** * Properties                                                       *)
(* ================================================================== *)

(** ** The creation queue *)

Module QueueFacts.
Import Py Domain Persistence QueueSpec.

Lemma before_true (a b : QueueEntry) :
  before a b = true <->
  (priority b < priority a
   \/ (priority a = priority b /\ added_at a < added_at b))%Z.
Proof.
  unfold before. rewrite orb_true_iff, andb_true_iff.
  rewrite !Z.ltb_lt, Z.eqb_eq. tauto.
Qed.

Lemma before_false (a b : QueueEntry) :
  before a b = false <->
  (priority a <= priority b
   /\ (priority a = priority b -> added_at b <= added_at a))%Z.
Proof.
  rewrite <- not_true_iff_false, before_true. lia.
Qed.

Lemma queued_true (pid : UUID) (e : QueueEntry) :
  queued pid e = true <-> person_id e = pid.
Proof. unfold queued, uuid_eqb. apply N.eqb_eq. Qed.

Lemma queued_false (pid : UUID) (e : QueueEntry) :
  queued pid e = false <-> person_id e <> pid.
Proof. unfold queued, uuid_eqb. apply N.eqb_neq. Qed.

(** What the ordered query selects: the row [e] splits the table, every
    row above it sorts strictly after it, no row below it sorts strictly
    before it. *)
Lemma pick_spec (q : list QueueEntry) :
  match pick q with
  | None => q = []
  | Some (e, rest) =>
      exists l1 l2,
        q = l1 ++ e :: l2 /\ rest = l1 ++ l2
        /\ Forall (fun x => before e x = true) l1
        /\ Forall (fun x => before x e = false) l2
  end.
Proof.
  induction q as [|e0 q' IH]; simpl; [reflexivity|].
  destruct (pick q') as [[b rest]|].
  - destruct IH as (l1 & l2 & Hq & Hrest & H1 & H2).
    destruct (before b e0) eqn:Hb.
    + exists (e0 :: l1), l2. subst. repeat split; auto.
    + exists [], q'. repeat split; auto. subst q'.
      apply Forall_app; split; [|constructor].
      * eapply Forall_impl; [|exact H1]. simpl. intros x Hx.
        apply before_true in Hx. apply before_false in Hb.
        apply before_false. lia.
      * exact Hb.
      * eapply Forall_impl; [|exact H2]. simpl. intros x Hx.
        apply before_false in Hx. apply before_false in Hb.
        apply before_false. lia.
  - subst q'. exists [], []. repeat split; auto.
Qed.

Lemma find_update_first_same (pid : UUID) (p : Z) (q : list QueueEntry) :
  find (queued pid) (update_first (queued pid) (raise_priority p) q)
  = option_map (raise_priority p) (find (queued pid) q).
Proof.
  induction q as [|e q IH]; simpl; [reflexivity|].
  destruct (queued pid e) eqn:He; simpl.
  - unfold queued in *. simpl. now rewrite He.
  - now rewrite He.
Qed.

Lemma find_update_first_other (pid other : UUID) (p : Z) (q : list QueueEntry) :
  other <> pid ->
  find (queued other) (update_first (queued pid) (raise_priority p) q)
  = find (queued other) q.
Proof.
  intros Hne. induction q as [|e q IH]; simpl; [reflexivity|].
  destruct (queued pid e) eqn:He; simpl.
  - apply queued_true in He.
    assert (queued other e = false) as Ho by (apply queued_false; congruence).
    unfold queued in *. simpl. now rewrite Ho.
  - destruct (queued other e); auto.
Qed.

Lemma map_update_first_ids (pid : UUID) (p : Z) (q : list QueueEntry) :
  map person_id (update_first (queued pid) (raise_priority p) q)
  = map person_id q.
Proof.
  induction q as [|e q IH]; simpl; [reflexivity|].
  destruct (queued pid e); simpl; congruence.
Qed.

Lemma find_none_not_in (pid : UUID) (q : list QueueEntry) :
  find (queued pid) q = None -> ~ In pid (map person_id q).
Proof.
  intros Hf Hin. apply in_map_iff in Hin. destruct Hin as (e & He & Hin).
  eapply find_none in Hf; eauto. apply queued_false in Hf. contradiction.
Qed.

Lemma find_app_new (pid other : UUID) (q : list QueueEntry) (e : QueueEntry) :
  find (queued other) (q ++ [e])
  = match find (queued other) q with
    | Some x => Some x
    | None => if queued other e then Some e else None
    end.
Proof.
  induction q as [|x q IH]; simpl.
  - destruct (queued other e); reflexivity.
  - destruct (queued other x); auto.
Qed.

Lemma enqueue_unique (s : Store) (pid : UUID) (prio now : Z) :
  queue_unique s -> queue_unique (enqueue s pid prio now).
Proof.
  unfold queue_unique, enqueue, enqueue_rows. simpl. intros Hu.
  destruct (find (queued pid) (creation_queue s)) as [existing|] eqn:Hf.
  - destruct (priority existing <? prio)%Z; auto.
    now rewrite map_update_first_ids.
  - rewrite map_app. simpl.
    apply NoDup_app_remove_l with (l := []). simpl.
    apply Permutation.Permutation_NoDup with (l := pid :: map person_id (creation_queue s)).
    + apply Permutation.Permutation_cons_append.
    + constructor; auto. now apply find_none_not_in.
Qed.

Lemma enqueue_priority (s : Store) (pid : UUID) (prio now : Z) :
  queued_priority (enqueue s pid prio now) pid
  = Some match queued_priority s pid with
         | Some old => Z.max old prio
         | None => prio
         end.
Proof.
  unfold queued_priority, enqueue, enqueue_rows. simpl.
  destruct (find (queued pid) (creation_queue s)) as [existing|] eqn:Hf; simpl.
  - destruct (priority existing <? prio)%Z eqn:Hlt.
    + rewrite find_update_first_same, Hf. simpl. f_equal.
      apply Z.ltb_lt in Hlt. lia.
    + rewrite Hf. simpl. f_equal. apply Z.ltb_ge in Hlt. lia.
  - rewrite (find_app_new pid), Hf.
    assert (queued pid {| person_id := pid; priority := prio; added_at := now |} = true)
      as -> by now apply queued_true.
    reflexivity.
Qed.

Lemma enqueue_others (s : Store) (pid other : UUID) (prio now : Z) :
  other <> pid ->
  queued_priority (enqueue s pid prio now) other = queued_priority s other.
Proof.
  intros Hne. unfold queued_priority, enqueue, enqueue_rows. simpl.
  destruct (find (queued pid) (creation_queue s)) as [existing|] eqn:Hf.
  - destruct (priority existing <? prio)%Z; auto.
    now rewrite find_update_first_other.
  - rewrite (find_app_new pid).
    destruct (find (queued other) (creation_queue s)); auto.
    assert (queued other {| person_id := pid; priority := prio; added_at := now |} = false)
      as -> by (apply queued_false; simpl; congruence).
    reflexivity.
Qed.

Lemma dequeue_spec (s : Store) :
  match dequeue s with
  | (None, s') => creation_queue s = [] /\ s' = s
  | (Some pid, s') => dequeues s pid s'
  end.
Proof.
  unfold dequeue. pose proof (pick_spec (creation_queue s)) as H.
  destruct (pick (creation_queue s)) as [[e rest]|].
  - destruct H as (l1 & l2 & Hq & Hr & H1 & H2).
    exists l1, e, l2. subst rest. auto.
  - auto.
Qed.

Lemma dequeue_removes (s : Store) (p : UUID) (s' : Store) :
  queue_unique s -> dequeue s = (Some p, s') ->
  ~ In p (map person_id (creation_queue s'))
  /\ persons s' = persons s /\ log s' = log s.
Proof.
  intros Hu Hd. pose proof (dequeue_spec s) as H. rewrite Hd in H.
  destruct H as (l1 & e & l2 & Hq & Hp & -> & _). simpl.
  repeat split. unfold queue_unique in Hu. rewrite Hq, map_app in Hu.
  simpl in Hu. apply NoDup_remove_2 in Hu. now rewrite map_app, <- Hp.
Qed.

Lemma not_in_find_none (pid : UUID) (q : list QueueEntry) :
  ~ In pid (map person_id q) -> find (queued pid) q = None.
Proof.
  induction q as [|e q IH]; simpl; [reflexivity|]. intros Hn.
  destruct (queued pid e) eqn:He.
  - apply queued_true in He. tauto.
  - apply IH. tauto.
Qed.

Lemma sorted_prefix_le (R : QueueEntry -> QueueEntry -> Prop)
      (l1 l2 : list QueueEntry) (e : QueueEntry) :
  StronglySorted R (l1 ++ e :: l2) -> Forall (fun x => R x e) l1.
Proof.
  induction l1 as [|x l1 IH]; simpl; intros Hs; [constructor|].
  inversion Hs as [|? ? Hs' Hall]; subst. constructor.
  - rewrite Forall_forall in Hall. apply Hall, in_or_app. right. now left.
  - now apply IH.
Qed.

Lemma with_queue_same (s : Store) : with_queue s (creation_queue s) = s.
Proof. now destruct s. Qed.



(** Persons 2 and 3 leave the demo queue before person 1, and 2 before 3. *)
Example queue_demo_order :
  let '(a, s1) := dequeue queue_demo in
  let '(b, s2) := dequeue s1 in
  let '(c, s3) := dequeue s2 in
  (a, b, c, fst (dequeue s3)) = (Some 2%N, Some 3%N, Some 1%N, None).
Proof. reflexivity. Qed.

End QueueFacts.

(** ** The name parser *)

Module ParserFacts.
Import Py Dedup.

Lemma nth_error_last {A} (l : list A) (x d : A) :
  nth_error (x :: l) (length (x :: l) - 1) = Some (last (x :: l) d).
Proof.
  revert x. induction l as [|y l IH]; intros x; [reflexivity|].
  specialize (IH y). simpl in *. rewrite Nat.sub_0_r in IH. exact IH.
Qed.

Lemma index_last_cons {A} (l : list A) (x d : A) :
  index_last (x :: l) = Ok (last (x :: l) d).
Proof.
  unfold index_last, index. now rewrite (nth_error_last l x d).
Qed.

Lemma slice_inner_cons {A} (l : list A) (x : A) :
  slice_inner (x :: l) = removelast l.
Proof.
  unfold slice_inner. simpl. rewrite removelast_firstn_len.
  f_equal. lia.
Qed.

(** C6.  [parse_name] returns a parsed name for every string, and what
    it returns is fixed by the tokens left after maiden-name extraction,
    suffix extraction and whitespace collapse: none gives "Unknown" and
    "Unknown"; one token is the given name with surname "Unknown"; two
    are given name and surname; of three or more the first is the given
    name, the last the surname and those between the middle names. *)
Theorem parse_name_tokens (full_name : str) :
  exists p,
    parse_name full_name = Ok p
    /\ match split (cleaned_name full_name) with
       | [] =>
           given_name p = lit "Unknown" /\ middle_names p = []
           /\ surname p = lit "Unknown"
       | [a] =>
           given_name p = a /\ middle_names p = []
           /\ surname p = lit "Unknown"
       | [a; b] =>
           given_name p = a /\ middle_names p = [] /\ surname p = b
       | a :: rest =>
           given_name p = a /\ middle_names p = removelast rest
           /\ surname p = last rest a
       end.
Proof.
  unfold parse_name, cleaned_name.
  destruct (extract_maiden nee_patterns (strip full_name)) as [maiden n1].
  simpl snd.
  destruct (extract_suffixes n1) as [sufs n2]. simpl snd.
  destruct (split (strip (Re.sub spaces_pattern (lit " ") n2)))
    as [|a [|b [|c rest]]].
  - eexists; split; [reflexivity|]. simpl. auto.
  - eexists; split; [reflexivity|]. simpl. auto.
  - eexists; split; [reflexivity|]. simpl. auto.
  - cbn [length Nat.eqb bind index nth_error].
    rewrite (index_last_cons (b :: c :: rest) a a), slice_inner_cons.
    eexists; split; [reflexivity|].
    cbn [given_name middle_names surname]. repeat split.
Qed.

(** The examples of the docstring and of the parser's callers. *)
Example parse_john_smith :
  parse_name (lit "John Smith")
  = Ok {| given_name := lit "John"; middle_names := [];
          surname := lit "Smith"; maiden_name := None; suffixes := None |}.
Proof. reflexivity. Qed.

Example parse_nee :
  parse_name (lit "Mary Smith (n" ++ e_acute :: lit "e Jones)")
  = Ok {| given_name := lit "Mary"; middle_names := [];
          surname := lit "Smith"; maiden_name := Some (lit "Jones");
          suffixes := None |}.
Proof. reflexivity. Qed.

Example parse_single_token :
  parse_name (lit "Madonna")
  = Ok {| given_name := lit "Madonna"; middle_names := [];
          surname := lit "Unknown"; maiden_name := None; suffixes := None |}.
Proof. reflexivity. Qed.

(** A suffix followed by a full stop: [\b] cannot follow the stop, the
    suffix is matched without it and the stop stays behind as a token. *)
Example parse_suffix_with_stop :
  parse_name (lit "John Smith Jr.")
  = Ok {| given_name := lit "John"; middle_names := [lit "Smith"];
          surname := lit "."; maiden_name := None;
          suffixes := Some [lit "Jr"] |}.
Proof. reflexivity. Qed.

Example parse_suffix :
  parse_name (lit "John Smith Jr")
  = Ok {| given_name := lit "John"; middle_names := [];
          surname := lit "Smith"; maiden_name := None;
          suffixes := Some [lit "Jr"] |}.
Proof. reflexivity. Qed.

End ParserFacts.

(** ** The heuristic match score *)

Module ScoreFacts.
Import Py Dedup ScoreSpec.

Lemma parse_name_ok (full_name : str) : exists p, parse_name full_name = Ok p.
Proof.
  unfold parse_name.
  destruct (extract_maiden nee_patterns (strip full_name)) as [maiden n1].
  destruct (extract_suffixes n1) as [sufs n2].
  destruct (split (strip (Re.sub spaces_pattern (lit " ") n2)))
    as [|a [|b [|c rest]]]; try (eexists; reflexivity).
  cbn [length Nat.eqb bind index nth_error].
  rewrite (ParserFacts.index_last_cons (b :: c :: rest) a a).
  eexists; reflexivity.
Qed.

(** The sets of the code hold lower-cased strings; the reference
    compares the strings as they are, case-insensitively. *)
Lemma among_lower (x : str) (ys : list str) :
  str_in (lower x) (map lower ys) = among same_text x ys.
Proof.
  unfold str_in, among, same_text.
  induction ys as [|y ys IH]; simpl; [reflexivity|]. now rewrite IH.
Qed.

Lemma share_lower (xs ys : list str) :
  intersects (map lower xs) (map lower ys) = share same_text xs ys.
Proof.
  unfold intersects, share.
  induction xs as [|x xs IH]; simpl; [reflexivity|].
  now rewrite IH, among_lower.
Qed.

Lemma all_surnames_set (p : ParsedName) :
  all_surnames p = map lower (surname_set p).
Proof.
  unfold all_surnames, surname_set.
  destruct (maiden_name p) as [[|c m]|]; reflexivity.
Qed.

Lemma all_parts_tokens (p : ParsedName) :
  all_parts p = map lower (name_tokens p).
Proof. reflexivity. Qed.

Lemma has_suffixes_carries (p : ParsedName) :
  has_suffixes p = carries_suffixes p.
Proof.
  unfold has_suffixes, carries_suffixes, suffix_set.
  destruct (suffixes p) as [[|x l]|]; reflexivity.
Qed.

Lemma suffix_test_as_written (a b : ParsedName) :
  has_suffixes a && has_suffixes b
  && negb (set_eqb (suffix_list a) (suffix_list b))
  = suffixes_differ_by str_eqb a b.
Proof.
  unfold suffixes_differ_by. now rewrite !has_suffixes_carries.
Qed.

Lemma name_score_value (a b : ParsedName) :
  name_score a b
  = name_value (given_names_match a b) (surname_sets_intersect a b)
      (among same_text (surname a) (name_tokens b))
      (among same_text (surname b) (name_tokens a))
      (middle_names_intersect a b).
Proof.
  unfold name_score, name_value, given_names_match, surname_sets_intersect,
    middle_names_intersect.
  rewrite !all_surnames_set, share_lower, !all_parts_tokens, !among_lower.
  fold (same_text (given_name a) (given_name b)).
  destruct (same_text (given_name a) (given_name b)); [|reflexivity].
  rewrite (share_lower (middle_names a) (middle_names b)).
  destruct (middle_names a) as [|m1 ms1], (middle_names b) as [|m2 ms2];
    reflexivity.
Qed.

Lemma name_contribution_value (a b : ParsedName) :
  name_contribution a b
  = name_value (given_names_match a b) (surname_sets_intersect a b)
      (among same_text (surname a) (name_tokens b))
      (among same_text (surname b) (name_tokens a))
      (middle_names_intersect a b).
Proof.
  unfold name_contribution, name_value, surname_among_tokens.
  destruct (given_names_match a b), (surname_sets_intersect a b),
    (among same_text (surname a) (name_tokens b)),
    (among same_text (surname b) (name_tokens a)),
    (middle_names_intersect a b); reflexivity.
Qed.

Lemma year_score_known (y1 y2 : option Z) :
  year_score y1 y2 = year_contribution (known_year y1) (known_year y2).
Proof.
  unfold year_score, year_contribution, known_year, truthy_int.
  destruct y1 as [[|a|a]|], y2 as [[|b|b]|]; reflexivity.
Qed.

Lemma year_contribution_value (y1 y2 : option Z) :
  exists known same within2 within5,
    year_contribution y1 y2 = year_value known same within2 within5.
Proof.
  unfold year_contribution, year_value.
  destruct y1 as [a|], y2 as [b|];
    try (exists false, false, false, false; reflexivity).
  exists true, (Z.abs (a - b) =? 0)%Z, (Z.abs (a - b) <=? 2)%Z,
    (Z.abs (a - b) <=? 5)%Z.
  reflexivity.
Qed.

Lemma clamp_value (g s t1 t2 m k d0 d2 d5 : bool) :
  let x := (name_value g s t1 t2 m + year_value k d0 d2 d5)%float in
  py_max 0.0 (py_min x 1.0) = clamp01 x
  /\ PrimFloat.leb 0 (clamp01 x) = true
  /\ PrimFloat.leb (clamp01 x) 1 = true.
Proof.
  destruct g, s, t1, t2, m, k, d0, d2, d5; vm_compute; auto.
Qed.

Lemma known_year_given (y : option Z) : y <> Some 0%Z -> known_year y = y.
Proof. destruct y as [[|p|p]|]; intros H; try reflexivity. now elim H. Qed.

Lemma score_as_written (n1 : str) (y1 : option Z) (n2 : str) (y2 : option Z) :
  heuristic_match_score n1 y1 n2 y2 = amended_score n1 y1 n2 y2.
Proof.
  unfold heuristic_match_score, amended_score.
  destruct (parse_name n1) as [a|e]; [|reflexivity].
  destruct (parse_name n2) as [b|e]; [|reflexivity].
  cbn [bind]. rewrite suffix_test_as_written. unfold score_by.
  destruct (suffixes_differ_by str_eqb a b); [reflexivity|].
  rewrite name_score_value, year_score_known, name_contribution_value.
  destruct (year_contribution_value (known_year y1) (known_year y2))
    as (k & d0 & d2 & d5 & ->).
  f_equal. apply clamp_value.
Qed.



(** The same name and suffix in capitals and in small letters: the
    suffix sets are the same case-insensitively and the reference
    definition gives 1.0; the code compares "JR" with "jr" as written,
    finds the suffix sets different and gives 0.0. *)
Example heuristic_match_score_suffix_case :
  heuristic_match_score (lit "JOHN SMITH JR") (Some 1950%Z)
                        (lit "john smith jr") (Some 1950%Z) = Ok 0.0%float
  /\ reference_score (lit "JOHN SMITH JR") (Some 1950%Z)
                     (lit "john smith jr") (Some 1950%Z) = Ok 1.0%float
  /\ parse_name (lit "JOHN SMITH JR")
     = Ok {| given_name := lit "JOHN"; middle_names := [];
             surname := lit "SMITH"; maiden_name := None;
             suffixes := Some [lit "JR"] |}
  /\ parse_name (lit "john smith jr")
     = Ok {| given_name := lit "john"; middle_names := [];
             surname := lit "smith"; maiden_name := None;
             suffixes := Some [lit "jr"] |}.
Proof. repeat split; vm_compute; reflexivity. Qed.

(** Suffixes written alike: the score is the reference definition. *)
Example heuristic_match_score_same_suffix :
  heuristic_match_score (lit "John Smith Jr") (Some 1950%Z)
                        (lit "John Smith Jr") (Some 1951%Z) = Ok 0.95%float
  /\ reference_score (lit "John Smith Jr") (Some 1950%Z)
                     (lit "John Smith Jr") (Some 1951%Z) = Ok 0.95%float
  /\ heuristic_match_score (lit "John Smith Jr") (Some 1950%Z)
                           (lit "John Smith Sr") (Some 1950%Z) = Ok 0.0%float
  /\ reference_score (lit "John Smith Jr") (Some 1950%Z)
                     (lit "John Smith Sr") (Some 1950%Z) = Ok 0.0%float.
Proof. repeat split; vm_compute; reflexivity. Qed.

End ScoreFacts.

(** ** Validation *)

Module ValidationFacts.
Import Py Domain Validation ValidationSpec.

Lemma grows_refl (r : report) : grows r r.
Proof. split; apply incl_refl. Qed.

Lemma grows_trans (a b c : report) : grows a b -> grows b c -> grows a c.
Proof. intros [? ?] [? ?]. split; eapply incl_tran; eauto. Qed.

Lemma grows_err (r : report) (e : str) : grows r (fst r ++ [e], snd r).
Proof. split; simpl; [apply incl_appl|]; apply incl_refl. Qed.

Lemma grows_warn (r : report) (w : str) : grows r (fst r, snd r ++ [w]).
Proof. split; simpl; [|apply incl_appl]; apply incl_refl. Qed.

Create HintDb validation.
#[local] Hint Resolve grows_refl grows_err grows_warn : validation.

Lemma parent_child_grows v n pb cb pd r :
  grows r (_validate_parent_child v n pb cb pd r).
Proof.
  unfold _validate_parent_child.
  destruct pb as [pb|], cb as [cb|]; auto with validation.
  destruct r as [errs warns].
  destruct (cb - pb <? min_parent_age v)%Z;
    [|destruct (max_parent_age v + 20 <? cb - pb)%Z];
    destruct pd as [pd|]; try destruct (pd + 1 <? cb)%Z;
    split; simpl; auto using incl_refl, incl_appl.
Qed.

Lemma lifespan_grows v b d r : grows r (check_lifespan v b d r).
Proof.
  unfold check_lifespan.
  destruct (truthy_int b && truthy_int d); auto with validation.
  destruct b as [b|], d as [d|]; auto with validation.
  destruct (d - b <? 0)%Z; auto with validation.
  destruct (max_lifespan v <? d - b)%Z; auto with validation.
  destruct (d - b <? 1)%Z; auto with validation.
Qed.

Lemma spouse_grows b sp r : grows r (check_spouse b sp r).
Proof.
  unfold check_spouse.
  destruct (truthy_int b && truthy_int (approximate_birth_year sp));
    auto with validation.
  destruct b as [b|], (approximate_birth_year sp) as [sb|];
    auto with validation.
  destruct (30 <? Z.abs (b - sb))%Z; auto with validation.
Qed.

Lemma event_grows b d ev r : grows r (check_event b d ev r).
Proof.
  unfold check_event.
  destruct (truthy_int _ && truthy_int b); auto with validation.
  destruct (_get_year _ _) as [ey|], b as [b|]; auto with validation.
  assert (grows r (if (ey <? b)%Z
                   then (fst r ++ [msg_event_before_birth (event_type ev) ey b],
                         snd r)
                   else r)) as H1
      by (destruct (ey <? b)%Z; auto with validation).
  destruct d as [d|]; auto.
  destruct (truthy_int (Some d) && (d <? ey)%Z); auto.
  eapply grows_trans; [exact H1|]. auto with validation.
Qed.

Lemma for_each_grows {A} (xs : list A) (body : A -> report -> report) r :
  (forall x r, grows r (body x r)) -> grows r (for_each xs body r).
Proof.
  intros Hb. unfold for_each. revert r.
  induction xs as [|x xs IH]; intros r; simpl; [apply grows_refl|].
  eapply grows_trans; [apply Hb|apply IH].
Qed.

(** What the iteration for [x] appends is still there after the loop. *)
Lemma for_each_keeps {A} (xs : list A) (body : A -> report -> report)
      (x : A) (P : report -> Prop) r :
  (forall x r, grows r (body x r)) ->
  (forall r r', grows r r' -> P r -> P r') ->
  In x xs -> (forall r, P (body x r)) -> P (for_each xs body r).
Proof.
  intros Hb HP Hin Hx. unfold for_each. revert r.
  induction xs as [|y xs IH]; intros r; simpl; [contradiction|].
  destruct Hin as [->|Hin].
  - eapply HP; [|apply Hx].
    apply (for_each_grows xs body (body x r) Hb).
  - now apply IH.
Qed.

Lemma error_kept (e : str) (r r' : report) :
  grows r r' -> In e (fst r) -> In e (fst r').
Proof. intros [H _]. apply H. Qed.

Lemma warning_kept (w : str) (r r' : report) :
  grows r r' -> In w (snd r) -> In w (snd r').
Proof. intros [_ H]. apply H. Qed.

Lemma invalid_of_error (errs : list str) (e : str) :
  In e errs -> (length errs =? 0)%nat = false.
Proof. destruct errs; [contradiction|reflexivity]. Qed.

Lemma validate_report v data :
  validate_extracted_data v data
  = {| is_valid := (length (fst (final_report v data)) =? 0)%nat;
       errors := fst (final_report v data);
       warnings := snd (final_report v data) |}.
Proof. reflexivity. Qed.

Lemma lifespan_to_parents v data :
  grows (after_lifespan v data) (after_parents v data).
Proof.
  unfold after_parents. apply for_each_grows. intros. apply parent_child_grows.
Qed.

Lemma parents_to_children v data :
  grows (after_parents v data) (after_children v data).
Proof.
  unfold after_children. apply for_each_grows. intros. apply parent_child_grows.
Qed.

Lemma children_to_final v data :
  grows (after_children v data) (final_report v data).
Proof.
  unfold final_report.
  apply grows_trans
    with (b := for_each (spouses data) (check_spouse (subject_birth_year data))
                 (after_children v data));
    apply for_each_grows; intros; [apply spouse_grows|apply event_grows].
Qed.

Lemma mentions_before_birth d b :
  mentions "before birth" (msg_death_before_birth d b).
Proof.
  exists (lit "Death year (" ++ repr_int d ++ lit ") "),
         (lit " year (" ++ repr_int b ++ lit ")").
  unfold msg_death_before_birth. rewrite <- !app_assoc. reflexivity.
Qed.

Lemma mentions_too_young n age m :
  mentions "too young" (msg_too_young n age m).
Proof.
  exists (lit "Parent " ++ n ++ lit " "),
         (lit " at child's birth: " ++ lit "age " ++ repr_int age
          ++ lit " (min: " ++ repr_int m ++ lit ")").
  unfold msg_too_young. rewrite <- !app_assoc. reflexivity.
Qed.

Lemma mentions_old n age : mentions "old" (msg_very_old n age).
Proof.
  exists (lit "Parent " ++ n ++ lit " very "),
         (lit " at child's birth: age " ++ repr_int age).
  unfold msg_very_old. rewrite <- !app_assoc. reflexivity.
Qed.

Lemma mentions_died c n d : mentions "died" (msg_born_after_death c n d).
Proof.
  exists (lit "Child born in " ++ repr_int c ++ lit ", but parent " ++ n
          ++ lit " "),
         (lit " in " ++ repr_int d).
  unfold msg_born_after_death. rewrite <- !app_assoc. reflexivity.
Qed.

(** The outcome of one parent-child check, by age. *)
Lemma parent_child_too_young v n pb cb pd r :
  (cb - pb < min_parent_age v)%Z ->
  In (msg_too_young n (cb - pb) (min_parent_age v))
     (fst (_validate_parent_child v n (Some pb) (Some cb) pd r)).
Proof.
  intros H. unfold _validate_parent_child. destruct r as [errs warns].
  apply Z.ltb_lt in H. rewrite H.
  destruct pd as [pd|]; [destruct (pd + 1 <? cb)%Z|]; simpl;
    rewrite ?in_app_iff; simpl; auto.
Qed.

Lemma parent_child_old v n pb cb pd r :
  (min_parent_age v <= cb - pb)%Z -> (max_parent_age v + 20 < cb - pb)%Z ->
  In (msg_very_old n (cb - pb))
     (snd (_validate_parent_child v n (Some pb) (Some cb) pd r)).
Proof.
  intros H1 H2. unfold _validate_parent_child. destruct r as [errs warns].
  apply Z.ltb_ge in H1. apply Z.ltb_lt in H2. rewrite H1, H2.
  destruct pd as [pd|]; [destruct (pd + 1 <? cb)%Z|]; simpl;
    rewrite ?in_app_iff; simpl; auto.
Qed.

Lemma parent_child_old_no_error v n pb cb r :
  (min_parent_age v <= cb - pb)%Z ->
  fst (_validate_parent_child v n (Some pb) (Some cb) None r) = fst r.
Proof.
  intros H1. unfold _validate_parent_child. destruct r as [errs warns].
  apply Z.ltb_ge in H1. rewrite H1.
  now destruct (max_parent_age v + 20 <? cb - pb)%Z.
Qed.

Lemma parent_child_posthumous v n pb cb pd r :
  (pd + 1 < cb)%Z ->
  In (msg_born_after_death cb n pd)
     (fst (_validate_parent_child v n (Some pb) (Some cb) (Some pd) r)).
Proof.
  intros H. unfold _validate_parent_child. destruct r as [errs warns].
  apply Z.ltb_lt in H. rewrite H.
  destruct (cb - pb <? min_parent_age v)%Z;
    [|destruct (max_parent_age v + 20 <? cb - pb)%Z]; simpl;
    rewrite ?in_app_iff; simpl; auto.
Qed.

Lemma lifespan_negative v b d :
  b <> 0%Z -> d <> 0%Z -> (d < b)%Z ->
  In (msg_death_before_birth d b) (fst (after_lifespan_of v (Some b) (Some d))).
Proof.
  intros Hb Hd Hlt. unfold after_lifespan_of, check_lifespan, truthy_int.
  apply Z.eqb_neq in Hb, Hd. rewrite Hb, Hd. simpl.
  assert ((d - b <? 0)%Z = true) as -> by (apply Z.ltb_lt; lia).
  simpl. auto.
Qed.

Lemma in_after_parents v data parent (P : report -> Prop) :
  (forall r r', grows r r' -> P r -> P r') ->
  In parent (parents data) ->
  (forall r, P (_validate_parent_child v (name parent)
                  (approximate_birth_year parent) (subject_birth_year data)
                  None r)) ->
  P (final_report v data).
Proof.
  intros HP Hin Hx.
  apply HP with (r := after_parents v data).
  - eapply grows_trans; [apply parents_to_children|apply children_to_final].
  - unfold after_parents.
    apply for_each_keeps with (x := parent); auto.
    intros. apply parent_child_grows.
Qed.

Lemma in_after_children v data child (P : report -> Prop) :
  (forall r r', grows r r' -> P r -> P r') ->
  In child (children data) ->
  (forall r, P (_validate_parent_child v (subject_name data)
                  (subject_birth_year data) (approximate_birth_year child)
                  (subject_death_year data) r)) ->
  P (final_report v data).
Proof.
  intros HP Hin Hx.
  apply HP with (r := after_children v data).
  - apply children_to_final.
  - unfold after_children.
    apply for_each_keeps with (x := child); auto.
    intros. apply parent_child_grows.
Qed.

Lemma error_reported v data e phrase :
  In e (fst (final_report v data)) -> mentions phrase e ->
  is_valid (validate_extracted_data v data) = false
  /\ some_mentions phrase (errors (validate_extracted_data v data)).
Proof.
  intros Hin Hm. rewrite validate_report. simpl. split.
  - eapply invalid_of_error; eauto.
  - exists e. auto.
Qed.

Lemma for_each_same {A} (xs : list A) (body : A -> report -> report)
      (r : report) :
  (forall x r, body x r = r) -> for_each xs body r = r.
Proof.
  intros H. unfold for_each. revert r.
  induction xs as [|x xs IH]; intros r; simpl; [reflexivity|].
  now rewrite H, IH.
Qed.

(** Without the subject's birth year no check is made. *)
Lemma unknown_birth_unchecked v data :
  subject_birth_year data = None ->
  validate_extracted_data v data
  = {| is_valid := true; errors := []; warnings := [] |}.
Proof.
  intros H. rewrite validate_report.
  assert (E : final_report v data = ([], [])).
  { unfold final_report, after_children, after_parents, after_lifespan,
      after_lifespan_of.
    rewrite H. simpl.
    rewrite !for_each_same; try reflexivity.
    - intros x r. unfold _validate_parent_child.
      now destruct (approximate_birth_year x).
    - intros x r. unfold check_event. simpl. now rewrite andb_false_r. }
  now rewrite E.
Qed.




(** The lifespan is tested by truthiness: a subject born in 1950 with
    the death year 0 passes, though 0 is below 1950. *)
Example death_year_zero_unchecked :
  validate_extracted_data default_validator
    {| x_given_name := lit "John"; x_surname := lit "Smith";
       x_maiden_name := None; x_gender := MALE;
       x_birth_date := None; x_birth_place := None;
       x_birth_year := Some 1950%Z;
       x_death_date := None; x_death_place := None;
       x_death_year := Some 0%Z;
       parents := []; children := [];
       spouses := []; siblings := []; other_relatives := [];
       events := []; notes := [] |}
  = {| is_valid := true; errors := []; warnings := [] |}.
Proof. reflexivity. Qed.

End ValidationFacts.

(** ** The correction loop *)

Module CorrectionFacts.
Import Py Domain Validation Persistence Service CorrectionSpec.

Section Loop.
Variable correct : nat -> str -> ExtractedData -> list str -> ExtractedData.
Variable validator : Validator.
Variable biography : str.
Variable extracted : ExtractedData.

Local Abbreviation facts := (corrected correct validator biography extracted).
Local Abbreviation valid := (valid_after correct validator biography extracted).
Local Abbreviation loop := (correction_loop correct validator).

Lemma loop_exhausted (len start : nat) (st : Corrected) :
  at_attempt correct validator biography extracted start st ->
  (forall k, start < k <= start + len -> valid k = false) ->
  at_attempt correct validator biography extracted (start + len) (loop (seq start len) biography st).
Proof.
  revert start st. induction len as [|len IH]; intros start st Hst Hbad.
  - rewrite Nat.add_0_r. simpl.
    destruct (negb (is_valid (validation st))); auto.
  - cbn [seq correction_loop]. destruct Hst as (Hd & Hv & Hc & Hn).
    rewrite Hd, Hv.
    change (correct start biography (facts start)
              (errors (validate_extracted_data validator (facts start))))
      with (facts (S start)).
    assert (valid (S start) = false) as Hs by (apply Hbad; lia).
    unfold valid_after in Hs. rewrite Hs.
    replace (start + S len) with (S start + len) by lia.
    apply IH.
    + repeat split; simpl; congruence.
    + intros k Hk. apply Hbad. lia.
Qed.

Lemma loop_stops (len start k : nat) (st : Corrected) :
  at_attempt correct validator biography extracted start st ->
  start <= k < start + len ->
  (forall j, start < j <= k -> valid j = false) ->
  valid (S k) = true ->
  at_attempt correct validator biography extracted (S k) (loop (seq start len) biography st).
Proof.
  revert start st. induction len as [|len IH]; intros start st Hst Hk Hbad Hok;
    [lia|].
  cbn [seq correction_loop]. destruct Hst as (Hd & Hv & Hc & Hn).
  rewrite Hd, Hv.
  change (correct start biography (facts start)
            (errors (validate_extracted_data validator (facts start))))
    with (facts (S start)).
  destruct (Nat.eq_dec k start) as [->|Hne].
  - unfold valid_after in Hok. rewrite Hok.
    repeat split; simpl; congruence.
  - assert (valid (S start) = false) as Hs by (apply Hbad; lia).
    unfold valid_after in Hs. rewrite Hs.
    apply IH.
    + repeat split; simpl; congruence.
    + lia.
    + intros j Hj. apply Hbad. lia.
    + exact Hok.
Qed.

End Loop.

(** C4.  When the extracted facts do not validate: if no correction up
    to the configured maximum validates, the loop calls the correction
    agent exactly that many times, validating once after each call, and
    returns the facts of the last correction with their validation
    result, which is invalid; if the k-th correction is the first to
    validate, the loop stops after k calls and returns those facts with
    their valid result.  No path raises. *)
Theorem correction_loop_terminates
        (correct : nat -> str -> ExtractedData -> list str -> ExtractedData)
        (validator : Validator) (max_correction_attempts : Z)
        (biography : str) (extracted : ExtractedData) :
  let run := _validate_and_correct correct validator max_correction_attempts
               biography extracted in
  let facts := corrected correct validator biography extracted in
  let valid := valid_after correct validator biography extracted in
  let n := Z.to_nat max_correction_attempts in
  valid 0 = false ->
  ((forall k, 0 < k <= n -> valid k = false) ->
   correction_calls run = n
   /\ validation_calls run = S n
   /\ data run = facts n
   /\ validation run = validate_extracted_data validator (facts n)
   /\ is_valid (validation run) = false)
  /\ (forall k, 0 < k <= n ->
      (forall j, 0 < j < k -> valid j = false) -> valid k = true ->
      correction_calls run = k
      /\ validation_calls run = S k
      /\ data run = facts k
      /\ validation run = validate_extracted_data validator (facts k)
      /\ is_valid (validation run) = true).
Proof.
  intros run facts valid n Hbad0. subst run.
  unfold _validate_and_correct. fold n.
  assert (is_valid (validate_extracted_data validator extracted) = false)
    as Hbad0' by exact Hbad0.
  rewrite Hbad0'.
  set (st0 := {| data := extracted;
                 validation := validate_extracted_data validator extracted;
                 correction_calls := 0; validation_calls := 1;
                 correction_log := [] |}).
  assert (at_attempt correct validator biography extracted 0 st0) as H0
      by (repeat split).
  split.
  - intros Hbad.
    destruct (loop_exhausted correct validator biography extracted n 0 st0 H0)
      as (Hd & Hv & Hc & Hn); [intros; apply Hbad; lia|].
    simpl in *. repeat split; auto.
    rewrite Hv. destruct n as [|n'].
    + exact Hbad0.
    + apply (Hbad (S n')). lia.
  - intros k Hk Hbad Hok. destruct k as [|k]; [lia|].
    destruct (loop_stops correct validator biography extracted n 0 k st0 H0)
      as (Hd & Hv & Hc & Hn); auto; try lia.
    + intros j Hj. apply Hbad. lia.
    + repeat split; auto. rewrite Hv. exact Hok.
Qed.

Lemma correction_loop_terminates_witness :
  let run := _validate_and_correct idle_agent ValidationSpec.default_validator
               2 [] bad_facts in
  correction_calls run = 2
  /\ validation_calls run = 3
  /\ data run = bad_facts
  /\ is_valid (validation run) = false.
Proof.
  assert (H0 : valid_after idle_agent ValidationSpec.default_validator []
                 bad_facts 0 = false) by reflexivity.
  assert (Hall : forall k, 0 < k <= Z.to_nat 2 ->
                   valid_after idle_agent ValidationSpec.default_validator []
                     bad_facts k = false).
  { intros k Hk. assert (k = 1 \/ k = 2) as [-> | ->] by (simpl in Hk; lia);
      reflexivity. }
  destruct (proj1 (correction_loop_terminates idle_agent
                     ValidationSpec.default_validator 2 [] bad_facts H0) Hall)
    as (Hc & Hn & Hd & _ & Hv).
  repeat split; assumption.
Defined.

End CorrectionFacts.

(** ** Reference resolution *)

Module ResolveFacts.
Import Py Domain Validation Persistence Service ResolveSpec.

Lemma find_app {A} (f : A -> bool) (l1 l2 : list A) :
  find f (l1 ++ l2)
  = match find f l1 with
    | Some x => Some x
    | None => find f l2
    end.
Proof.
  induction l1 as [|x l1 IH]; simpl; [reflexivity|]. now destruct (f x).
Qed.

Lemma lstrip_blank (n : str) : blank n -> lstrip_by isspace n = [].
Proof.
  induction 1 as [|c n Hc Hn IH]; simpl; [reflexivity|]. now rewrite Hc.
Qed.

Lemma strip_blank (n : str) : blank n -> strip n = [].
Proof. intros H. unfold strip. now rewrite (lstrip_blank _ H). Qed.

Lemma nonempty_true (n : str) : n <> [] -> nonempty n = true.
Proof. destruct n; [intros H; now elim H|reflexivity]. Qed.

Lemma name_nonempty (n : str) : strip n <> [] -> nonempty n = true.
Proof. destruct n; [intros H; now elim H|reflexivity]. Qed.

Section Validate.
Variable current_year : Z.

Lemma validate_blank (reference : PersonReference) :
  blank (name reference) ->
  is_valid (validate_person_reference current_year reference) = false.
Proof.
  intros H. unfold validate_person_reference.
  rewrite (strip_blank _ H). simpl nonempty. rewrite orb_true_r.
  destruct (truthy_int (approximate_birth_year reference));
    [destruct (approximate_birth_year reference) as [y|];
     [destruct (current_year <? y)%Z|]|]; reflexivity.
Qed.

Lemma validate_future (reference : PersonReference) (y : Z) :
  (0 <= current_year)%Z ->
  approximate_birth_year reference = Some y -> (current_year < y)%Z ->
  is_valid (validate_person_reference current_year reference) = false.
Proof.
  intros H0 Hy Hlt. unfold validate_person_reference. rewrite Hy.
  unfold truthy_int.
  assert ((y =? 0)%Z = false) as -> by (apply Z.eqb_neq; lia).
  assert ((current_year <? y)%Z = true) as -> by (apply Z.ltb_lt; lia).
  simpl. now destruct (_ || _).
Qed.

Lemma validate_old (reference : PersonReference) (y : Z) :
  strip (name reference) <> [] ->
  approximate_birth_year reference = Some y ->
  y <> 0%Z -> (y < 1500)%Z -> (y <= current_year)%Z ->
  validate_person_reference current_year reference
  = {| is_valid := true; errors := [];
       warnings := [msg_very_old_year y] |}.
Proof.
  intros Hn Hy H0 Hold Hle. unfold validate_person_reference. rewrite Hy.
  rewrite (name_nonempty _ Hn), (nonempty_true _ Hn). unfold truthy_int.
  assert ((y =? 0)%Z = false) as -> by (apply Z.eqb_neq; lia).
  assert ((current_year <? y)%Z = false) as -> by (apply Z.ltb_ge; lia).
  assert ((y <? 1500)%Z = true) as -> by (apply Z.ltb_lt; lia).
  reflexivity.
Qed.

Lemma validate_plausible (reference : PersonReference) :
  strip (name reference) <> [] ->
  plausible_year current_year (approximate_birth_year reference) ->
  is_valid (validate_person_reference current_year reference) = true.
Proof.
  intros Hn Hy. unfold validate_person_reference.
  rewrite (name_nonempty _ Hn), (nonempty_true _ Hn).
  destruct (approximate_birth_year reference) as [y|]; [|reflexivity].
  simpl in Hy. unfold truthy_int.
  assert ((y =? 0)%Z = false) as -> by (apply Z.eqb_neq; lia).
  assert ((current_year <? y)%Z = false) as -> by (apply Z.ltb_ge; lia).
  reflexivity.
Qed.

End Validate.

Lemma heuristic_match_score_ok n1 y1 n2 y2 :
  exists x, Dedup.heuristic_match_score n1 y1 n2 y2 = Ok x.
Proof.
  unfold Dedup.heuristic_match_score.
  destruct (ScoreFacts.parse_name_ok n1) as [a ->].
  destruct (ScoreFacts.parse_name_ok n2) as [b ->].
  cbn [bind]. destruct (_ && _); eexists; reflexivity.
Qed.

Lemma candidate_score_ok s reference g sn c :
  exists x, candidate_score s reference g sn c = Ok x.
Proof.
  unfold candidate_score.
  destruct (heuristic_match_score_ok (name reference)
              (approximate_birth_year reference) (full_name c)
              (year_of (birth_date c))) as [x ->].
  cbn [bind]. destruct (_ && _); eexists; reflexivity.
Qed.

Lemma good_candidates_ok s reference g sn cands :
  exists good, good_candidates s reference g sn cands = Ok good.
Proof.
  induction cands as [|c cands [good IH]]; simpl; [eexists; reflexivity|].
  destruct (candidate_score_ok s reference g sn c) as [x ->].
  rewrite IH. cbn [bind]. destruct (PrimFloat.leb _ _); eexists; reflexivity.
Qed.

Lemma create_pending_ok (current_year : Z) s reference parsed generation fresh :
  (current_year <= 9999)%Z ->
  plausible_year current_year (approximate_birth_year reference) ->
  create_pending s reference parsed generation fresh
  = Ok (Some fresh,
        person_create s (pending_person reference parsed generation fresh)).
Proof.
  intros Hc Hy. unfold create_pending, pending_person, birth_of.
  destruct (approximate_birth_year reference) as [y|]; [|reflexivity].
  simpl in Hy. unfold truthy_int.
  assert ((y =? 0)%Z = false) as -> by (apply Z.eqb_neq; lia).
  cbn [negb]. unfold date_jan1.
  assert ((1 <=? y)%Z && (y <=? 9999)%Z = true) as ->
      by (apply andb_true_iff; split; apply Z.leb_le; lia).
  reflexivity.
Qed.

Lemma create_pending_some s reference parsed generation fresh o s' :
  create_pending s reference parsed generation fresh = Ok (o, s') ->
  o = Some fresh.
Proof.
  unfold create_pending.
  destruct (truthy_int _);
    [destruct (approximate_birth_year reference) as [y|];
     [destruct (date_jan1 y)|]|];
    cbn [bind]; congruence.
Qed.

Lemma create_pending_dated s reference parsed generation fresh y :
  approximate_birth_year reference = Some y -> (1 <= y <= 9999)%Z ->
  create_pending s reference parsed generation fresh
  = Ok (Some fresh,
        person_create s (pending_person reference parsed generation fresh)).
Proof.
  intros Hy Hr. apply create_pending_ok with (current_year := 9999%Z);
    [lia|]. rewrite Hy. exact Hr.
Qed.

Lemma create_pending_year_zero s reference parsed generation fresh :
  approximate_birth_year reference = Some 0%Z ->
  create_pending s reference parsed generation fresh
  = Ok (Some fresh,
        person_create s
          (pending_person (without_year reference) parsed generation fresh)).
Proof. intros Hy. unfold create_pending. rewrite Hy. reflexivity. Qed.

Lemma create_pending_negative s reference parsed generation fresh y :
  approximate_birth_year reference = Some y -> (y < 0)%Z ->
  create_pending s reference parsed generation fresh = Raise ValueError.
Proof.
  intros Hy Hneg. unfold create_pending. rewrite Hy. unfold truthy_int.
  assert ((y =? 0)%Z = false) as -> by (apply Z.eqb_neq; lia).
  cbn [negb]. unfold date_jan1.
  assert ((1 <=? y)%Z = false) as -> by (apply Z.leb_gt; lia).
  reflexivity.
Qed.

Lemma invalid_has_errors (current_year : Z) (reference : PersonReference) :
  is_valid (validate_person_reference current_year reference) = false ->
  errors (validate_person_reference current_year reference) <> [].
Proof.
  unfold validate_person_reference.
  destruct (truthy_int _);
    [destruct (approximate_birth_year reference) as [y|]|]; simpl;
    intros H E; rewrite E in H; discriminate.
Qed.

Section Resolve.
Variable current_year : Z.
Variable uuid_of_str : str -> option UUID.
Variable search_similar :
  Store -> str -> str -> option Z -> option str -> list Person.
Variable search_by_given_name_and_birth_year :
  Store -> str -> option Z -> list Person.
Variable check_duplicate :
  Store -> PersonReference -> Z -> option Person -> list Person -> DedupResult.

Local Abbreviation resolve :=
  (_resolve_person_reference current_year uuid_of_str search_similar
     search_by_given_name_and_birth_year check_duplicate).
Local Abbreviation candidates :=
  (heuristic_candidates search_similar search_by_given_name_and_birth_year).
Local Abbreviation answer := (ask_dedup_agent check_duplicate).

Lemma heuristic_candidates_ok s reference parsed :
  exists good, candidates s reference parsed = Ok good.
Proof. unfold heuristic_candidates. apply good_candidates_ok. Qed.

Lemma resolve_invalid s reference generation new_person fresh :
  is_valid (validate_person_reference current_year reference) = false ->
  resolve s reference generation new_person fresh
  = Ok (None,
        logging s (WarnInvalidReference
                     (errors (validate_person_reference current_year reference)))).
Proof. intros H. unfold _resolve_person_reference. now rewrite H. Qed.

(** A reference that passes validation is never answered with "no
    person". *)
Lemma resolve_valid_not_dropped s reference generation new_person fresh :
  is_valid (validate_person_reference current_year reference) = true ->
  ~ dropped s (resolve s reference generation new_person fresh).
Proof.
  intros H (s' & Hr & _). unfold _resolve_person_reference in Hr.
  rewrite H in Hr. cbn [negb] in Hr.
  destruct (ScoreFacts.parse_name_ok (name reference)) as [parsed Hp].
  rewrite Hp in Hr. cbn [bind] in Hr.
  destruct (candidates s reference parsed) as [[|g good]|e];
    cbn [bind] in Hr; try discriminate.
  - apply create_pending_some in Hr. discriminate.
  - destruct (_ && _).
    + destruct (matched_person_id _) as [text|].
      * destruct (uuid_of_str text); [discriminate|].
        apply create_pending_some in Hr. discriminate.
      * apply create_pending_some in Hr. discriminate.
    + apply create_pending_some in Hr. discriminate.
Qed.

(** A reference that passes validation is matched or goes on to the
    creation of the pending record, on the store as it is or with the
    warning about a malformed identifier in its log; it goes on to the
    creation whenever no candidate passed the filter or the agent
    reports no match. *)
Lemma resolve_valid_cases s reference generation new_person fresh parsed good :
  is_valid (validate_person_reference current_year reference) = true ->
  Dedup.parse_name (name reference) = Ok parsed ->
  candidates s reference parsed = Ok good ->
  ((exists matched_id,
       resolve s reference generation new_person fresh
       = Ok (Some matched_id, s))
   \/ exists s0,
       resolve s reference generation new_person fresh
       = create_pending s0 reference parsed generation fresh
       /\ persons s0 = persons s /\ child_links s0 = child_links s
       /\ spouse_links s0 = spouse_links s
       /\ creation_queue s0 = creation_queue s)
  /\ (good = [] \/ no_match (answer s reference generation new_person good) ->
      resolve s reference generation new_person fresh
      = create_pending s reference parsed generation fresh).
Proof.
  intros Hv Hp Hg. unfold _resolve_person_reference.
  rewrite Hv. cbn [negb]. rewrite Hp. cbn [bind]. rewrite Hg. cbn [bind].
  destruct good as [|g good].
  - split; [right; exists s; auto|reflexivity].
  - unfold no_match.
    destruct (is_duplicate _ && truthy_str _) eqn:E.
    + split; [|intros [H|H]; discriminate].
      destruct (matched_person_id _) as [text|].
      * destruct (uuid_of_str text) as [matched_id|].
        -- left. now exists matched_id.
        -- right.
           exists (logging s (WarnInvalidUUID text (name reference))). auto.
      * right. exists s. auto.
    + split; [right; exists s; auto|reflexivity].
Qed.


(** C7.  A reference with a non-blank name and a plausible birth year,
    for which no candidate passes the heuristic filter or for which the
    deduplication agent, asked about the candidates that passed, reports
    no match, makes resolution create one new person: pending, with the
    parsed given name, surname and maiden name, the reference's gender
    and birth year and the requested generation; its id is returned.
    For a parent reference the orchestrator asks for the subject's
    generation minus one, links the new person as parent and, the person
    being pending, enqueues it at priority 1 and marks it queued. *)
Theorem no_match_creates_pending s reference generation new_person fresh :
  (current_year <= 9999)%Z ->
  strip (name reference) <> [] ->
  plausible_year current_year (approximate_birth_year reference) ->
  exists parsed good,
    Dedup.parse_name (name reference) = Ok parsed
    /\ candidates s reference parsed = Ok good
    /\ (good = []
        \/ no_match (answer s reference generation new_person good) ->
        resolve s reference generation new_person fresh
        = Ok (Some fresh,
              person_create s
                (pending_person reference parsed generation fresh)))
    /\ (forall subject now,
          good = []
          \/ no_match (answer s reference (Domain.generation subject - 1)
                         (Some subject) good) ->
          get_by_id s fresh = None ->
          link_exists s fresh (id subject) = false ->
          get_parent_count s (id subject) < 2 ->
          process_parent_ref current_year uuid_of_str search_similar
            search_by_given_name_and_birth_year check_duplicate
            s subject reference fresh now
          = Ok (person_update
                  (enqueue
                     (link_create
                        (person_create s
                           (pending_person reference parsed
                              (Domain.generation subject - 1) fresh))
                        fresh (id subject))
                     fresh 1 now)
                  fresh (set_status QUEUED)))
    /\ process_parent_ref 2026 uuid_of_demo search_nobody search_nobody_broad
         never_duplicate john_alone john william_ref 2%N 100
       = Ok {| persons :=
                 [john;
                  {| id := 2%N; status := QUEUED;
                     given_name := lit "William"; surname := lit "Smith";
                     maiden_name := None; nickname := None; gender := MALE;
                     birth_date := Some (mkdate 1920 1 1);
                     birth_place := None; death_date := None;
                     death_place := None; biography := None;
                     generation := -1 |}];
               child_links := [(2%N, 1%N)];
               spouse_links := [];
               creation_queue :=
                 [{| person_id := 2%N; priority := 1; added_at := 100 |}];
               log := [] |}.
Proof.
  intros Hc Hn Hy.
  destruct (ScoreFacts.parse_name_ok (name reference)) as [parsed Hp].
  destruct (heuristic_candidates_ok s reference parsed) as [good Hg].
  exists parsed, good. split; [exact Hp|]. split; [exact Hg|].
  assert (Hres : forall gen np,
             good = [] \/ no_match (answer s reference gen np good) ->
             resolve s reference gen np fresh
             = Ok (Some fresh,
                   person_create s (pending_person reference parsed gen fresh))).
  { intros gen np Hno. unfold _resolve_person_reference.
    rewrite (validate_plausible current_year reference Hn Hy). cbn [negb].
    rewrite Hp. cbn [bind]. rewrite Hg. cbn [bind].
    destruct good as [|g good];
      [now apply create_pending_ok with (current_year := current_year)|].
    destruct Hno as [Hno|Hno]; [discriminate|].
    unfold no_match in Hno. rewrite Hno.
    now apply create_pending_ok with (current_year := current_year). }
  split; [apply Hres|]. split; [|reflexivity].
  intros subject now Hno Hfresh Hlink Hcount.
  unfold process_parent_ref. rewrite (Hres _ _ Hno). cbn [bind].
  unfold link_parent.
  assert (link_exists (person_create s (pending_person reference parsed
                         (Domain.generation subject - 1) fresh))
            fresh (id subject) = false) as -> by exact Hlink.
  assert ((2 <=? get_parent_count
                   (person_create s (pending_person reference parsed
                      (Domain.generation subject - 1) fresh))
                   (id subject)) = false) as ->
      by (apply Nat.leb_gt; exact Hcount).
  cbn [bind].
  assert (get_by_id
            (link_create
               (person_create s (pending_person reference parsed
                  (Domain.generation subject - 1) fresh))
               fresh (id subject)) fresh
          = Some (pending_person reference parsed
                    (Domain.generation subject - 1) fresh)) as ->.
  { unfold get_by_id in *. simpl. rewrite find_app, Hfresh. simpl.
    unfold has_id, uuid_eqb. simpl. now rewrite N.eqb_refl. }
  reflexivity.
Qed.

(** C2.  When candidates pass the filter and the deduplication agent
    answers "duplicate" with an identifier: an identifier that parses as
    a [UUID] is what resolution returns, the store left as it is; an
    identifier that does not parse is logged and otherwise treated as no
    match, so that resolution goes on exactly as it does when nothing
    matched, and for a plausible birth year creates and returns a new
    pending person. *)
Theorem dedup_identifier_handled s reference generation new_person fresh
        parsed g good text :
  is_valid (validate_person_reference current_year reference) = true ->
  Dedup.parse_name (name reference) = Ok parsed ->
  candidates s reference parsed = Ok (g :: good) ->
  is_duplicate (answer s reference generation new_person (g :: good)) = true ->
  matched_person_id (answer s reference generation new_person (g :: good))
  = Some text ->
  text <> [] ->
  (forall matched_id,
      uuid_of_str text = Some matched_id ->
      resolve s reference generation new_person fresh = Ok (Some matched_id, s))
  /\ (uuid_of_str text = None ->
      resolve s reference generation new_person fresh
      = create_pending (logging s (WarnInvalidUUID text (name reference)))
          reference parsed generation fresh
      /\ ((current_year <= 9999)%Z ->
          plausible_year current_year (approximate_birth_year reference) ->
          resolve s reference generation new_person fresh
          = Ok (Some fresh,
                person_create
                  (logging s (WarnInvalidUUID text (name reference)))
                  (pending_person reference parsed generation fresh)))).
Proof.
  intros Hv Hp Hg Hdup Hid Htext.
  assert (Hr : resolve s reference generation new_person fresh
               = match uuid_of_str text with
                 | Some matched_id => Ok (Some matched_id, s)
                 | None =>
                     create_pending
                       (logging s (WarnInvalidUUID text (name reference)))
                       reference parsed generation fresh
                 end).
  { unfold _resolve_person_reference. rewrite Hv. cbn [negb].
    rewrite Hp. cbn [bind]. rewrite Hg. cbn [bind].
    rewrite Hdup, Hid. cbn [truthy_str andb].
    now rewrite (nonempty_true _ Htext). }
  split.
  - intros matched_id Hm. now rewrite Hr, Hm.
  - intros Hm. rewrite Hr, Hm. split; [reflexivity|].
    intros Hc Hy. now apply create_pending_ok with (current_year := current_year).
Qed.

End Resolve.

Local Abbreviation resolve_alone :=
  (_resolve_person_reference 2026 uuid_of_demo search_nobody
     search_nobody_broad never_duplicate).



Local Abbreviation resolve_unmatched :=
  (_resolve_person_reference 2026 uuid_of_demo search_everybody
     search_nobody_broad never_duplicate).

(** John Smith, born in 1950, is mentioned where a John Smith born in
    1950 is stored: the stored person passes the filter with the score
    1.0, the agent sees no duplicate, and a second John Smith is
    created. *)
(** A reference born in 500 BC: validation only warns, nobody matches,
    and the birth date of the new person cannot be built. *)
Example negative_birth_year_raises :
  validate_person_reference 2026
    (ValidationSpec.reference_to "John Smith" PARENT (Some (-500)%Z))
  = {| is_valid := true; errors := [];
       warnings := [lit "Very old birth year: -500"] |}
  /\ resolve_alone empty_store
       (ValidationSpec.reference_to "John Smith" PARENT (Some (-500)%Z))
       0 None 7%N
     = Raise ValueError.
Proof. split; reflexivity. Qed.

Lemma no_match_creates_pending_witness :
  exists parsed good,
    Dedup.parse_name (name john_ref) = Ok parsed
    /\ heuristic_candidates search_everybody search_nobody_broad
         john_alone john_ref parsed = Ok good
    /\ good = [(john, 1.0%float)]
    /\ resolve_unmatched john_alone john_ref 0 None 2%N
       = Ok (Some 2%N,
             person_create john_alone (pending_person john_ref parsed 0 2%N)).
Proof.
  assert (H1 : (2026 <= 9999)%Z) by lia.
  assert (H2 : strip (name john_ref) <> []) by discriminate.
  assert (H3 : plausible_year 2026 (approximate_birth_year john_ref))
    by (simpl; lia).
  destruct (no_match_creates_pending 2026 uuid_of_demo search_everybody
              search_nobody_broad never_duplicate john_alone john_ref
              0 None 2%N H1 H2 H3) as (parsed & good & Hp & Hg & Hres & _).
  exists parsed, good. split; [exact Hp|]. split; [exact Hg|].
  split; [|apply Hres; right; reflexivity].
  assert (E : Dedup.parse_name (name john_ref)
              = Ok {| Dedup.given_name := lit "John";
                      Dedup.middle_names := [];
                      Dedup.surname := lit "Smith";
                      Dedup.maiden_name := None;
                      Dedup.suffixes := None |}) by reflexivity.
  rewrite E in Hp. injection Hp as Hp. subst parsed.
  assert (G : heuristic_candidates search_everybody search_nobody_broad
                john_alone john_ref
                {| Dedup.given_name := lit "John";
                   Dedup.middle_names := [];
                   Dedup.surname := lit "Smith";
                   Dedup.maiden_name := None;
                   Dedup.suffixes := None |}
              = Ok [(john, 1.0%float)]) by reflexivity.
  assert (K : Ok [(john, 1.0%float)] = Ok good)
    by (rewrite <- G; exact Hg).
  now injection K as <-.
Defined.

Local Abbreviation resolve_named text :=
  (_resolve_person_reference 2026 uuid_of_demo search_everybody
     search_nobody_broad (always_names text)).

Lemma dedup_identifier_handled_witness :
  resolve_named "00000000-0000-0000-0000-000000000001" john_alone
    (ValidationSpec.reference_to "John Smith" SIBLING (Some 1950%Z))
    0 None 2%N
  = Ok (Some 1%N, john_alone).
Proof.
  apply (dedup_identifier_handled 2026 uuid_of_demo search_everybody
           search_nobody_broad
           (always_names "00000000-0000-0000-0000-000000000001")
           john_alone
           (ValidationSpec.reference_to "John Smith" SIBLING (Some 1950%Z))
           0 None 2%N
           {| Dedup.given_name := lit "John"; Dedup.middle_names := [];
              Dedup.surname := lit "Smith"; Dedup.maiden_name := None;
              Dedup.suffixes := None |}
           (john, 1%float) []
           (lit "00000000-0000-0000-0000-000000000001"));
    try reflexivity.
  discriminate.
Defined.

(** A truncated identifier: no exception, a warning in the log and a
    new pending person. *)
Example malformed_identifier :
  resolve_named "0000-1" john_alone
    (ValidationSpec.reference_to "John Smith" SIBLING (Some 1950%Z))
    0 None 2%N
  = Ok (Some 2%N,
        person_create
          (logging john_alone
             (WarnInvalidUUID (lit "0000-1") (lit "John Smith")))
          {| id := 2%N; status := PENDING;
             given_name := lit "John"; surname := lit "Smith";
             maiden_name := None; nickname := None; gender := MALE;
             birth_date := Some (mkdate 1950 1 1); birth_place := None;
             death_date := None; death_place := None; biography := None;
             generation := 0 |}).
Proof. reflexivity. Qed.

End ResolveFacts.

(** ** Merging *)

Module MergeFacts.
Import Py Domain Persistence Service MergeSpec.

Lemma uuid_eqb_eq (a b : UUID) : uuid_eqb a b = true <-> a = b.
Proof. apply N.eqb_eq. Qed.

Lemma uuid_eqb_neq (a b : UUID) : uuid_eqb a b = false <-> a <> b.
Proof. apply N.eqb_neq. Qed.

Lemma is_link_true (p c : UUID) (l : ChildLink) :
  is_link p c l = true <-> l = (p, c).
Proof.
  unfold is_link. rewrite andb_true_iff, !uuid_eqb_eq.
  destruct l as [a b]; simpl. split; [intros [-> ->]|intros [= -> ->]]; auto.
Qed.

Lemma exists_link (p c : UUID) (links : list ChildLink) :
  existsb (is_link p c) links = true <-> In (p, c) links.
Proof.
  rewrite existsb_exists. split.
  - intros (l & Hin & Hl). apply is_link_true in Hl. now subst.
  - intros Hin. exists (p, c). split; [exact Hin|]. now apply is_link_true.
Qed.

Lemma in_parents_of (p c : UUID) (links : list ChildLink) :
  In p (parents_of c links) <-> In (p, c) links.
Proof.
  unfold parents_of. rewrite in_map_iff. split.
  - intros ([a b] & <- & Hin). apply filter_In in Hin. simpl in *.
    destruct Hin as [Hin Hb]. apply uuid_eqb_eq in Hb. now subst.
  - intros Hin. exists (p, c). split; [reflexivity|].
    apply filter_In. split; [exact Hin|]. now apply uuid_eqb_eq.
Qed.

Lemma in_children_of (p c : UUID) (links : list ChildLink) :
  In c (children_of p links) <-> In (p, c) links.
Proof.
  unfold children_of. rewrite in_map_iff. split.
  - intros ([a b] & <- & Hin). apply filter_In in Hin. simpl in *.
    destruct Hin as [Hin Ha]. apply uuid_eqb_eq in Ha. now subst.
  - intros Hin. exists (p, c). split; [reflexivity|].
    apply filter_In. split; [exact Hin|]. now apply uuid_eqb_eq.
Qed.

(** *** Removing the first row that a query selects *)

Lemma remove_first_in {A} (f : A -> bool) (rows : list A) (x : A) :
  In x (remove_first f rows) -> In x rows.
Proof.
  induction rows as [|r rows IH]; simpl; [auto|].
  destruct (f r); simpl; intuition.
Qed.

Lemma remove_first_keeps {A} (f : A -> bool) (rows : list A) (x : A) :
  In x rows -> f x = false -> In x (remove_first f rows).
Proof.
  induction rows as [|r rows IH]; simpl; [auto|].
  intros [->|Hin] Hx.
  - rewrite Hx. now left.
  - destruct (f r); [exact Hin|]. right. now apply IH.
Qed.

Lemma remove_first_link_keeps (p c : UUID) (links : list ChildLink)
      (l : ChildLink) :
  In l links -> l <> (p, c) -> In l (remove_first (is_link p c) links).
Proof.
  intros Hin Hne. apply remove_first_keeps; [exact Hin|].
  destruct (is_link p c l) eqn:E; [|reflexivity].
  apply is_link_true in E. contradiction.
Qed.

Lemma children_of_app (p : UUID) (l1 l2 : list ChildLink) :
  children_of p (l1 ++ l2) = children_of p l1 ++ children_of p l2.
Proof. unfold children_of. now rewrite filter_app, map_app. Qed.

Lemma parents_of_app (c : UUID) (l1 l2 : list ChildLink) :
  parents_of c (l1 ++ l2) = parents_of c l1 ++ parents_of c l2.
Proof. unfold parents_of. now rewrite filter_app, map_app. Qed.

(** Removing the row (p, c) takes one [c] from the children of [p] ... *)
Lemma children_of_remove (p c : UUID) (links : list ChildLink) :
  In (p, c) links ->
  Permutation (children_of p links)
              (c :: children_of p (remove_first (is_link p c) links)).
Proof.
  induction links as [|[a b] links IH]; simpl; [contradiction|].
  intros Hin. destruct (is_link p c (a, b)) eqn:E.
  - apply is_link_true in E. injection E as -> ->.
    unfold children_of. simpl.
    assert (uuid_eqb p p = true) as -> by now apply uuid_eqb_eq.
    reflexivity.
  - destruct Hin as [Heq|Hin].
    + apply is_link_true in Heq. congruence.
    + specialize (IH Hin). unfold children_of in *. simpl.
      destruct (uuid_eqb a p); simpl; [|exact IH].
      rewrite IH. apply perm_swap.
Qed.

(** ... and one [p] from the parents of [c]. *)
Lemma parents_of_remove (p c : UUID) (links : list ChildLink) :
  In (p, c) links ->
  Permutation (parents_of c links)
              (p :: parents_of c (remove_first (is_link p c) links)).
Proof.
  induction links as [|[a b] links IH]; simpl; [contradiction|].
  intros Hin. destruct (is_link p c (a, b)) eqn:E.
  - apply is_link_true in E. injection E as -> ->.
    unfold parents_of. simpl.
    assert (uuid_eqb c c = true) as -> by now apply uuid_eqb_eq.
    reflexivity.
  - destruct Hin as [Heq|Hin].
    + apply is_link_true in Heq. congruence.
    + specialize (IH Hin). unfold parents_of in *. simpl.
      destruct (uuid_eqb b c); simpl; [|exact IH].
      rewrite IH. apply perm_swap.
Qed.

(** The rows of another child are not touched. *)
Lemma parents_of_remove_other (p x c : UUID) (links : list ChildLink) :
  x <> c ->
  parents_of c (remove_first (is_link p x) links) = parents_of c links.
Proof.
  intros Hne. induction links as [|[a b] links IH]; simpl; [reflexivity|].
  destruct (is_link p x (a, b)) eqn:E.
  - apply is_link_true in E. injection E as -> ->.
    unfold parents_of. simpl.
    assert (uuid_eqb x c = false) as -> by now apply uuid_eqb_neq.
    reflexivity.
  - unfold parents_of in *. simpl. destruct (uuid_eqb b c); simpl; congruence.
Qed.

Lemma parents_of_remove_le (p x c : UUID) (links : list ChildLink) :
  length (parents_of c (remove_first (is_link p x) links))
  <= length (parents_of c links).
Proof.
  induction links as [|[a b] links IH]; simpl; [auto|].
  destruct (is_link p x (a, b)).
  - unfold parents_of. simpl. destruct (uuid_eqb b c); simpl; lia.
  - unfold parents_of in *. simpl. destruct (uuid_eqb b c); simpl; lia.
Qed.

(** *** One step of the two reassignment loops *)

Lemma move_parent_in old new links x l :
  In l (move_parent old new links x) -> In l links \/ l = (new, x).
Proof.
  unfold move_parent.
  destruct (existsb (is_link new x) links);
    [|destruct (existsb (is_link old x) links)]; auto.
  - intros H. left. eapply remove_first_in; eauto.
  - rewrite in_app_iff. simpl. intros [H|[<-|[]]]; auto.
    left. eapply remove_first_in; eauto.
Qed.

Lemma move_parent_keeps old new links x l :
  In l links -> l <> (old, x) -> In l (move_parent old new links x).
Proof.
  intros Hin Hne. unfold move_parent.
  destruct (existsb (is_link new x) links);
    [|destruct (existsb (is_link old x) links)]; auto.
  - now apply remove_first_link_keeps.
  - apply in_or_app. left. now apply remove_first_link_keeps.
Qed.

Lemma move_parent_children old new links x :
  In x (children_of old links) ->
  Permutation (children_of old links)
              (x :: children_of old (move_parent old new links x)).
Proof.
  intros Hx. apply in_children_of in Hx. unfold move_parent.
  destruct (existsb (is_link new x) links) eqn:Hnew.
  - now apply children_of_remove.
  - assert (existsb (is_link old x) links = true) as ->
        by now apply exists_link.
    rewrite children_of_app.
    assert (children_of old [(new, x)] = []) as ->.
    { unfold children_of. simpl.
      destruct (uuid_eqb new old) eqn:E; [|reflexivity].
      apply uuid_eqb_eq in E. subst new.
      apply exists_link in Hx. congruence. }
    rewrite app_nil_r. now apply children_of_remove.
Qed.

Lemma move_parent_links_new old new links x :
  old <> new -> In (old, x) links -> In (new, x) (move_parent old new links x).
Proof.
  intros Hne Hx. unfold move_parent.
  destruct (existsb (is_link new x) links) eqn:Hnew.
  - apply exists_link in Hnew. apply remove_first_link_keeps; [exact Hnew|].
    intros [= E]. now apply Hne.
  - assert (existsb (is_link old x) links = true) as ->
        by now apply exists_link.
    apply in_or_app. right. now left.
Qed.

Lemma move_parent_count old new links x c :
  length (parents_of c (move_parent old new links x))
  <= length (parents_of c links).
Proof.
  unfold move_parent.
  destruct (existsb (is_link new x) links);
    [apply parents_of_remove_le|].
  destruct (existsb (is_link old x) links) eqn:Hold; [|auto].
  apply exists_link in Hold. rewrite parents_of_app, length_app.
  destruct (N.eq_dec x c) as [->|Hne].
  - pose proof (Permutation_length (parents_of_remove old c links Hold)) as Hl.
    unfold parents_of at 2. simpl.
    assert (uuid_eqb c c = true) as -> by now apply uuid_eqb_eq.
    simpl in *. lia.
  - rewrite parents_of_remove_other by exact Hne.
    unfold parents_of at 2. simpl.
    assert (uuid_eqb x c = false) as -> by now apply uuid_eqb_neq.
    simpl. lia.
Qed.

Lemma move_child_in oc nc links p l :
  In l (move_child oc nc links p) -> In l links \/ l = (p, nc).
Proof.
  unfold move_child. destruct (existsb (is_link p nc) links).
  - intros H. left. eapply remove_first_in; eauto.
  - rewrite in_app_iff. simpl. intros [H|[<-|[]]]; auto.
    left. eapply remove_first_in; eauto.
Qed.

Lemma move_child_keeps oc nc links p l :
  In l links -> l <> (p, oc) -> In l (move_child oc nc links p).
Proof.
  intros Hin Hne. unfold move_child.
  destruct (existsb (is_link p nc) links).
  - now apply remove_first_link_keeps.
  - apply in_or_app. left. now apply remove_first_link_keeps.
Qed.

Lemma move_child_parents oc nc links p :
  In p (parents_of oc links) ->
  Permutation (parents_of oc links)
              (p :: parents_of oc (move_child oc nc links p)).
Proof.
  intros Hp. apply in_parents_of in Hp. unfold move_child.
  destruct (existsb (is_link p nc) links) eqn:Hnew.
  - now apply parents_of_remove.
  - rewrite parents_of_app.
    assert (parents_of oc [(p, nc)] = []) as ->.
    { unfold parents_of. simpl.
      destruct (uuid_eqb nc oc) eqn:E; [|reflexivity].
      apply uuid_eqb_eq in E. subst nc.
      apply exists_link in Hp. congruence. }
    rewrite app_nil_r. now apply parents_of_remove.
Qed.

Lemma move_child_other oc nc links p c :
  oc <> c -> nc <> c ->
  parents_of c (move_child oc nc links p) = parents_of c links.
Proof.
  intros Ho Hn. unfold move_child.
  destruct (existsb (is_link p nc) links).
  - now apply parents_of_remove_other.
  - rewrite parents_of_app, parents_of_remove_other by exact Ho.
    unfold parents_of at 2. simpl.
    assert (uuid_eqb nc c = false) as -> by now apply uuid_eqb_neq.
    apply app_nil_r.
Qed.

(** *** The loops *)

Lemma moved_parents_in old new xs links l :
  In l (fold_left (move_parent old new) xs links) ->
  In l links \/ (fst l = new /\ In (snd l) xs).
Proof.
  revert links. induction xs as [|x xs IH]; simpl; intros links H; [auto|].
  apply IH in H. destruct H as [H|[H1 H2]]; [|auto].
  apply move_parent_in in H. destruct H as [H| ->]; simpl; auto.
Qed.

Lemma moved_parents_keep old new xs links l :
  In l links -> fst l <> old ->
  In l (fold_left (move_parent old new) xs links).
Proof.
  revert links. induction xs as [|x xs IH]; simpl; intros links H Hne; [auto|].
  apply IH; [|exact Hne]. apply move_parent_keeps; [exact H|].
  intros ->. now apply Hne.
Qed.

Lemma moved_parents_none old new xs links :
  Permutation (children_of old links) xs ->
  children_of old (fold_left (move_parent old new) xs links) = [].
Proof.
  revert links. induction xs as [|x xs IH]; simpl; intros links Hp.
  - symmetry in Hp. now apply Permutation_nil in Hp.
  - apply IH.
    assert (In x (children_of old links)) as Hx
        by (eapply Permutation_in; [symmetry; exact Hp|now left]).
    apply Permutation_cons_inv with (a := x).
    rewrite <- Hp. symmetry. now apply move_parent_children.
Qed.

Lemma moved_parents_linked old new xs links x :
  old <> new -> Permutation (children_of old links) xs -> In x xs ->
  In (new, x) (fold_left (move_parent old new) xs links).
Proof.
  intros Hne. revert links.
  induction xs as [|y xs IH]; simpl; intros links Hp Hx; [contradiction|].
  assert (In y (children_of old links)) as Hy
      by (eapply Permutation_in; [symmetry; exact Hp|now left]).
  assert (Permutation (children_of old (move_parent old new links y)) xs)
    as Hp'.
  { apply Permutation_cons_inv with (a := y).
    rewrite <- Hp. symmetry. now apply move_parent_children. }
  destruct (in_dec N.eq_dec x xs) as [Hin|Hnin].
  - now apply IH.
  - destruct Hx as [->|Hx]; [|contradiction].
    apply moved_parents_keep; [|simpl; congruence].
    apply move_parent_links_new; [exact Hne|]. now apply in_children_of.
Qed.

Lemma moved_parents_count old new xs links c :
  length (parents_of c (fold_left (move_parent old new) xs links))
  <= length (parents_of c links).
Proof.
  revert links. induction xs as [|x xs IH]; simpl; intros links; [auto|].
  etransitivity; [apply IH|apply move_parent_count].
Qed.

Lemma moved_children_in oc nc ps links l :
  In l (fold_left (move_child oc nc) ps links) ->
  In l links \/ (snd l = nc /\ In (fst l) ps).
Proof.
  revert links. induction ps as [|p ps IH]; simpl; intros links H; [auto|].
  apply IH in H. destruct H as [H|[H1 H2]]; [|auto].
  apply move_child_in in H. destruct H as [H| ->]; simpl; auto.
Qed.

Lemma moved_children_keep oc nc ps links l :
  In l links -> snd l <> oc ->
  In l (fold_left (move_child oc nc) ps links).
Proof.
  revert links. induction ps as [|p ps IH]; simpl; intros links H Hne; [auto|].
  apply IH; [|exact Hne]. apply move_child_keeps; [exact H|].
  intros ->. now apply Hne.
Qed.

Lemma moved_children_none oc nc ps links :
  Permutation (parents_of oc links) ps ->
  parents_of oc (fold_left (move_child oc nc) ps links) = [].
Proof.
  revert links. induction ps as [|p ps IH]; simpl; intros links Hp.
  - symmetry in Hp. now apply Permutation_nil in Hp.
  - apply IH.
    assert (In p (parents_of oc links)) as Hx
        by (eapply Permutation_in; [symmetry; exact Hp|now left]).
    apply Permutation_cons_inv with (a := p).
    rewrite <- Hp. symmetry. now apply move_child_parents.
Qed.

Lemma moved_children_other oc nc ps links c :
  oc <> c -> nc <> c ->
  parents_of c (fold_left (move_child oc nc) ps links) = parents_of c links.
Proof.
  intros Ho Hn. revert links.
  induction ps as [|p ps IH]; simpl; intros links; [reflexivity|].
  rewrite IH. now apply move_child_other.
Qed.

(** *** The repository operations, on the tables *)

Lemma with_child_links_same (s : Store) : with_child_links s (child_links s) = s.
Proof. now destruct s. Qed.

Lemma reassign_parent_links s old new x :
  reassign_parent s old new x
  = with_child_links s (move_parent old new (child_links s) x).
Proof.
  unfold reassign_parent, move_parent, link_exists, link_delete, link_create.
  destruct (existsb (is_link new x) (child_links s)); [reflexivity|].
  destruct (existsb (is_link old x) (child_links s)); [reflexivity|].
  symmetry. apply with_child_links_same.
Qed.

Lemma reassign_child_links s oc nc p :
  reassign_child s oc nc p
  = with_child_links s (move_child oc nc (child_links s) p).
Proof.
  unfold reassign_child, move_child, link_exists, link_delete, link_create.
  destruct (existsb (is_link p nc) (child_links s)); reflexivity.
Qed.

Lemma fold_reassign_parent s old new xs :
  fold_left (fun st x => reassign_parent st old new x) xs s
  = with_child_links s (fold_left (move_parent old new) xs (child_links s)).
Proof.
  revert s. induction xs as [|x xs IH]; intros s; simpl.
  - symmetry. apply with_child_links_same.
  - rewrite IH, reassign_parent_links. reflexivity.
Qed.

Lemma fold_reassign_child s oc nc ps :
  fold_left (fun st p => reassign_child st oc nc p) ps s
  = with_child_links s (fold_left (move_child oc nc) ps (child_links s)).
Proof.
  revert s. induction ps as [|p ps IH]; intros s; simpl.
  - symmetry. apply with_child_links_same.
  - rewrite IH, reassign_child_links. reflexivity.
Qed.

Lemma reassign_all_links s keep drop :
  reassign_all_child_links (reassign_all_parent_links s drop keep) drop keep
  = with_child_links s (links_merged keep drop (child_links s)).
Proof.
  unfold reassign_all_child_links, reassign_all_parent_links.
  rewrite !fold_reassign_parent, fold_reassign_child. reflexivity.
Qed.

Lemma reassign_spouse_rows new s x :
  exists rows, reassign_spouse new s x = with_spouse_links s rows.
Proof.
  unfold reassign_spouse, spouse_create.
  destruct (uuid_eqb x new); [exists (spouse_links s); now destruct s|].
  destruct (spouse_exists s new x); [exists (spouse_links s); now destruct s|].
  eexists; reflexivity.
Qed.

Lemma fold_reassign_spouse new sps s :
  exists rows,
    fold_left (reassign_spouse new) sps s = with_spouse_links s rows.
Proof.
  revert s. induction sps as [|x sps IH]; intros s; simpl.
  - exists (spouse_links s). now destruct s.
  - destruct (reassign_spouse_rows new s x) as [rows1 ->].
    destruct (IH (with_spouse_links s rows1)) as [rows ->].
    exists rows. reflexivity.
Qed.

(** The tables after a merge of two existing records. *)
Lemma merge_tables s keep drop keep_person merge_person :
  get_by_id s keep = Some keep_person ->
  get_by_id s drop = Some merge_person ->
  exists rows,
    child_links (_merge_persons s keep drop)
    = links_merged keep drop (child_links s)
    /\ spouse_links (_merge_persons s keep drop)
       = filter (fun l => negb (uuid_eqb (fst l) drop)
                          && negb (uuid_eqb (snd l) drop)) rows
    /\ creation_queue (_merge_persons s keep drop) = creation_queue s
    /\ log (_merge_persons s keep drop) = log s
    /\ persons (_merge_persons s keep drop)
       = remove_first (has_id drop)
           (if has_updates keep_person merge_person
            then update_first (has_id keep)
                   (apply_updates keep_person merge_person) (persons s)
            else persons s).
Proof.
  intros Hk Hd. unfold _merge_persons. rewrite Hk, Hd.
  rewrite reassign_all_links. unfold reassign_spouse_links.
  destruct (fold_reassign_spouse keep
              (get_spouses
                 (with_child_links s (links_merged keep drop (child_links s)))
                 drop)
              (with_child_links s (links_merged keep drop (child_links s))))
    as [rows ->].
  exists rows. destruct (has_updates keep_person merge_person); repeat split.
Qed.

(** *** After a merge, no link mentions the merged record *)

Lemma links_merged_clean keep drop links l :
  In l (links_merged keep drop links) -> fst l <> drop /\ snd l <> drop.
Proof.
  unfold links_merged. set (moved := parents_moved keep drop links).
  assert (Hmoved : forall l, In l moved -> fst l <> drop).
  { intros [a b] Hin Heq. simpl in Heq. subst a.
    apply in_children_of in Hin. unfold moved, parents_moved in Hin.
    rewrite moved_parents_none in Hin; [contradiction|reflexivity]. }
  intros Hin. split.
  - apply moved_children_in in Hin. destruct Hin as [Hin|[_ Hin]].
    + now apply Hmoved.
    + apply in_parents_of in Hin. apply (Hmoved _ Hin).
  - destruct l as [a b]. simpl. intros ->.
    apply in_parents_of in Hin.
    rewrite moved_children_none in Hin; [contradiction|reflexivity].
Qed.

(** *** The person table after a merge *)

Lemma has_id_true (i : UUID) (p : Person) : has_id i p = true <-> id p = i.
Proof. apply uuid_eqb_eq. Qed.

Lemma update_first_ids (i : UUID) (f : Person -> Person) (rows : list Person) :
  (forall p, id (f p) = id p) ->
  map id (update_first (has_id i) f rows) = map id rows.
Proof.
  intros Hf. induction rows as [|r rows IH]; simpl; [reflexivity|].
  destruct (has_id i r); simpl; [now rewrite Hf|now rewrite IH].
Qed.

Lemma find_removed (i : UUID) (rows : list Person) :
  NoDup (map id rows) -> find (has_id i) (remove_first (has_id i) rows) = None.
Proof.
  induction rows as [|r rows IH]; simpl; [reflexivity|].
  intros Hn. inversion Hn as [|? ? Hnin Hn']; subst.
  destruct (has_id i r) eqn:E.
  - apply has_id_true in E. subst i.
    destruct (find (has_id (id r)) rows) eqn:F; [|reflexivity].
    apply find_some in F. destruct F as [Hin Hid]. apply has_id_true in Hid.
    elim Hnin. rewrite <- Hid. now apply in_map.
  - simpl. rewrite E. now apply IH.
Qed.

Lemma merged_record_gone s keep drop keep_person merge_person :
  persons_unique s ->
  get_by_id s keep = Some keep_person ->
  get_by_id s drop = Some merge_person ->
  get_by_id (_merge_persons s keep drop) drop = None.
Proof.
  intros Hu Hk Hd.
  destruct (merge_tables s keep drop keep_person merge_person Hk Hd)
    as (rows & _ & _ & _ & _ & Hp).
  unfold get_by_id. rewrite Hp. apply find_removed.
  destruct (has_updates keep_person merge_person); [|exact Hu].
  rewrite update_first_ids; [exact Hu|reflexivity].
Qed.

(** *** A merged record that is still queued *)

(** C10.  Merging leaves the queue as it is: a queue entry of the
    merged record is still there after the record is deleted.  When a
    later dequeue returns that id, which it does whenever the entry
    comes first in the queue order, [process_next] finds no person
    for it, logs an error and returns nothing, without raising; the
    entry is gone from the queue. *)
Theorem merged_record_stays_queued
        (_forest_fire_sample : list Person -> Person)
        (_create_seed_person : Store -> result (Person * Store))
        (_process_person : Store -> UUID -> result (Person * Store))
        (s : Store) (keep drop : UUID) (keep_person merge_person : Person) :
  persons_unique s ->
  QueueSpec.queue_unique s ->
  get_by_id s keep = Some keep_person ->
  get_by_id s drop = Some merge_person ->
  In drop (map person_id (creation_queue s)) ->
  let merged := _merge_persons s keep drop in
  creation_queue merged = creation_queue s
  /\ In drop (map person_id (creation_queue merged))
  /\ get_by_id merged drop = None
  /\ (forall entry rest,
        pick (creation_queue s) = Some (entry, rest) ->
        person_id entry = drop ->
        dequeue merged = (Some drop, with_queue merged rest))
  /\ (forall s',
        dequeue merged = (Some drop, s') ->
        process_next _forest_fire_sample _create_seed_person _process_person
          merged
        = Ok (None, logging s' (ErrorPersonNotFound drop))
        /\ ~ In drop (map person_id (creation_queue s'))).
Proof.
  intros Hpu Hqu Hk Hd Hq merged.
  destruct (merge_tables s keep drop keep_person merge_person Hk Hd)
    as (rows & _ & _ & Hqueue & _ & _).
  fold merged in Hqueue.
  assert (get_by_id merged drop = None) as Hgone
      by (eapply merged_record_gone; eauto).
  split; [exact Hqueue|]. split; [now rewrite Hqueue|].
  split; [exact Hgone|]. split.
  - intros entry rest Hpick Hid. unfold dequeue.
    now rewrite Hqueue, Hpick, Hid.
  - intros s' Hdq.
    destruct (QueueFacts.dequeue_removes merged drop s') as (Hnin & Hp & _);
      [unfold QueueSpec.queue_unique; now rewrite Hqueue|exact Hdq|].
    split; [|exact Hnin].
    unfold process_next. rewrite Hdq.
    assert (get_by_id s' drop = None) as ->
        by (unfold get_by_id in *; now rewrite Hp).
    reflexivity.
Qed.

(** In the family, record 4 is queued; once it is merged into record 2
    the next cycle dequeues it and finds nobody. *)
Lemma merged_record_stays_queued_witness :
  let merged := _merge_persons family 2%N 4%N in
  creation_queue merged = creation_queue family
  /\ get_by_id merged 4%N = None
  /\ process_next (fun _ => john_doe) (fun s => Raise ValueError)
       (fun s _ => Raise ValueError) merged
     = Ok (None, logging (with_queue merged []) (ErrorPersonNotFound 4%N)).
Proof.
  assert (H1 : persons_unique family).
  { unfold persons_unique. simpl.
    repeat constructor; simpl; intuition discriminate. }
  assert (H2 : QueueSpec.queue_unique family).
  { unfold QueueSpec.queue_unique. simpl.
    repeat constructor; simpl; intuition discriminate. }
  assert (H3 : In 4%N (map person_id (creation_queue family)))
    by (simpl; auto).
  destruct (merged_record_stays_queued (fun _ => john_doe)
              (fun s => Raise ValueError) (fun s _ => Raise ValueError)
              family 2%N 4%N _ _ H1 H2 eq_refl eq_refl H3)
    as (Hq & _ & Hg & Hdq & Hpn).
  split; [exact Hq|]. split; [exact Hg|].
  apply Hpn. apply (Hdq _ [] eq_refl eq_refl).
Defined.

(** *** Reconciling a third parent *)

Lemma duplicate_parent_found s new_parent parsed eid ep :
  duplicate_parent s new_parent parsed eid = Ok (Some ep) ->
  get_by_id s eid = Some ep.
Proof.
  unfold duplicate_parent. destruct (get_by_id s eid) as [p|]; [|discriminate].
  destruct (negb _); [discriminate|].
  destruct (Dedup.parse_name (full_name p)); cbn [bind]; [|discriminate].
  destruct (negb _); [discriminate|]. destruct (_ && _); congruence.
Qed.

(** The duplicate test in words: the existing parent is on record, has
    the gender of the new parent and, its name parsed, the same given
    name; the surnames match directly, through a maiden name or through
    a spouse's surname; and the birth years, when both are known, are at
    most five apart. *)
Lemma duplicate_parent_iff s new_parent parsed eid ep :
  duplicate_parent s new_parent parsed eid = Ok (Some ep) <->
  get_by_id s eid = Some ep
  /\ gender ep = gender new_parent
  /\ exists existing_parsed,
      Dedup.parse_name (full_name ep) = Ok existing_parsed
      /\ lower (Dedup.given_name existing_parsed)
         = lower (Dedup.given_name parsed)
      /\ surnames_match s ep new_parent existing_parsed parsed = true
      /\ (forall e n, birth_date ep = Some e -> birth_date new_parent = Some n ->
                      (Z.abs (year e - year n) <= 5)%Z).
Proof.
  assert (Hstr : forall a b, str_eqb a b = true <-> a = b).
  { induction a as [|x a IH]; destruct b as [|y b]; simpl;
      try (split; [discriminate|discriminate]); [tauto|].
    unfold char_eqb. rewrite andb_true_iff, Ascii.eqb_eq, IH.
    split; [intros [-> ->]; reflexivity|intros [= -> ->]; auto]. }
  assert (Hgen : forall a b, gender_eqb a b = true <-> a = b)
    by (intros [] []; simpl; split; congruence).
  assert (Hby : forall e n, birth_year_match e n = true <->
                            forall de dn, birth_date e = Some de ->
                                          birth_date n = Some dn ->
                                          (Z.abs (year de - year dn) <= 5)%Z).
  { intros e n. unfold birth_year_match.
    destruct (birth_date e) as [de|], (birth_date n) as [dn|];
      try (split; [intros _ ? ? ? ?; discriminate|reflexivity]).
    rewrite Z.leb_le. split.
    - intros H ? ? [= <-] [= <-]. exact H.
    - intros H. now apply H. }
  unfold duplicate_parent. destruct (get_by_id s eid) as [p|].
  - destruct (gender_eqb (gender p) (gender new_parent)) eqn:G; cbn [negb].
    + apply Hgen in G.
      destruct (ScoreFacts.parse_name_ok (full_name p)) as [ex Hex].
      rewrite Hex. cbn [bind].
      destruct (str_eqb _ _) eqn:E; cbn [negb].
      * apply Hstr in E.
        destruct (surnames_match s p new_parent ex parsed) eqn:SM; cbn [andb].
        -- destruct (birth_year_match p new_parent) eqn:BY.
           ++ split.
              ** intros [= <-]. repeat split; auto. exists ex.
                 repeat split; auto. now apply Hby.
              ** intros ([= <-] & _). reflexivity.
           ++ split; [discriminate|].
              intros ([= <-] & _ & ex' & Hex' & _ & _ & Hb).
              apply Hby in Hb. congruence.
        -- split; [discriminate|].
           intros ([= <-] & _ & ex' & Hex' & _ & Hsm & _).
           rewrite Hex in Hex'. injection Hex' as <-. congruence.
      * split; [discriminate|].
        intros ([= <-] & _ & ex' & Hex' & Hg & _).
        rewrite Hex in Hex'. injection Hex' as <-.
        apply Hstr in Hg. congruence.
    + split; [discriminate|].
      intros ([= <-] & Hg & _). apply Hgen in Hg. congruence.
  - split; [discriminate|]. intros [H _]. discriminate.
Qed.

Lemma find_duplicate_parent_found s new_parent parsed ids eid ep :
  find_duplicate_parent s new_parent parsed ids = Ok (Some (eid, ep)) ->
  In eid ids /\ get_by_id s eid = Some ep.
Proof.
  induction ids as [|i ids IH]; simpl; [discriminate|].
  destruct (duplicate_parent s new_parent parsed i) as [[p|]|e] eqn:E;
    cbn [bind]; [| |discriminate].
  - intros [= <- <-]. split; [now left|].
    eapply duplicate_parent_found; eauto.
  - intros H. destruct (IH H). auto.
Qed.

Lemma link_exists_in s p c : link_exists s p c = true <-> In (p, c) (child_links s).
Proof. apply exists_link. Qed.

Lemma get_parents_of s c : get_parents s c = parents_of c (child_links s).
Proof. reflexivity. Qed.

Lemma parent_count_length s c :
  get_parent_count s c = length (parents_of c (child_links s)).
Proof. unfold get_parent_count, parents_of. now rewrite length_map. Qed.

(** The rows of a child that is neither of the two merged records. *)
Lemma merged_child_rows keep drop links c :
  keep <> c -> drop <> c -> keep <> drop ->
  In (keep, c) links \/ In (drop, c) links ->
  ~ In (c, c) links ->
  In (keep, c) (links_merged keep drop links)
  /\ length (parents_of c (links_merged keep drop links))
     <= length (parents_of c links)
  /\ ~ In (c, c) (links_merged keep drop links).
Proof.
  intros Hk Hd Hkd Hin Hself. unfold links_merged, parents_moved.
  split; [|split].
  - apply moved_children_keep; [|simpl; congruence].
    destruct Hin as [Hin|Hin].
    + apply moved_parents_keep; [exact Hin|simpl; congruence].
    + apply moved_parents_linked; [congruence|reflexivity|].
      now apply in_children_of.
  - rewrite moved_children_other by assumption.
    apply moved_parents_count.
  - intros H. apply moved_children_in in H. simpl in H.
    destruct H as [H|[H _]]; [|congruence].
    apply moved_parents_in in H. simpl in H.
    destruct H as [H|[H _]]; [contradiction|congruence].
Qed.

Lemma get_by_id_logging s r i : get_by_id (logging s r) i = get_by_id s i.
Proof. reflexivity. Qed.

(** One candidate through the parent branch. *)
Lemma link_parent_keeps_two (s : Store) (child candidate : UUID) (now : Z) :
  get_parent_count s child <= 2 ->
  candidate <> child ->
  ~ In child (get_parents s child) ->
  (get_parent_count s child = 2 -> link_exists s candidate child = false ->
   duplicate_detected s child candidate) ->
  exists s',
    link_parent s child candidate now = Ok s'
    /\ get_parent_count s' child <= 2
    /\ ~ In child (get_parents s' child).
Proof.
  intros Hcount Hcand Hself Hdup. unfold link_parent.
  destruct (link_exists s candidate child) eqn:Hlink; [eauto|].
  assert (~ In (candidate, child) (child_links s)) as Hnolink.
  { intros H. apply link_exists_in in H. congruence. }
  assert (~ In (child, child) (child_links s)) as Hnoself.
  { intros H. apply Hself. now apply in_parents_of. }
  destruct (2 <=? get_parent_count s child) eqn:Htwo.
  + apply Nat.leb_le in Htwo.
    assert (get_parent_count s child = 2) as Heq by lia.
    destruct (Hdup Heq eq_refl)
      as (new_parent & parsed & [eid ep] & Hnew & Hparse & Hfound).
    destruct (find_duplicate_parent_found _ _ _ _ _ _ Hfound) as [Hin Hep].
    apply in_parents_of in Hin.
    assert (eid <> child) as He by (intros ->; contradiction).
    assert (eid <> candidate) as Hec by (intros ->; contradiction).
    unfold _check_and_merge_duplicate_parents.
    assert (length (get_parents s child) = 2) as ->
        by (rewrite get_parents_of, <- parent_count_length; exact Heq).
    cbn [Nat.ltb Nat.leb].
    rewrite Hnew, Hparse. cbn [bind]. rewrite Hfound. cbn [bind].
    set (s0 := logging s (WarnDuplicateParents child eid candidate)).
    destruct (truthy_str (biography new_parent)
              && negb (truthy_str (biography ep))); cbn [bind].
    * destruct (merge_tables s0 candidate eid new_parent ep Hnew Hep)
        as (rows & Hl & _).
      destruct (merged_child_rows candidate eid (child_links s) child)
        as (Hk & Hle & Hs); auto.
      assert (link_exists (_merge_persons s0 candidate eid) candidate child
              = true) as ->
          by (apply link_exists_in; now rewrite Hl).
      eexists; split; [reflexivity|].
      rewrite parent_count_length, get_parents_of.
      change (child_links s0) with (child_links s) in Hl. rewrite Hl.
      rewrite parent_count_length in Hcount.
      split; [lia|].
      intros H. apply Hs. now apply in_parents_of.
    * destruct (merge_tables s0 eid candidate ep new_parent Hep Hnew)
        as (rows & Hl & _).
      destruct (merged_child_rows eid candidate (child_links s) child)
        as (Hk & Hle & Hs); auto.
      assert (link_exists (_merge_persons s0 eid candidate) eid child
              = true) as ->
          by (apply link_exists_in; now rewrite Hl).
      eexists; split; [reflexivity|].
      rewrite parent_count_length, get_parents_of.
      change (child_links s0) with (child_links s) in Hl. rewrite Hl.
      rewrite parent_count_length in Hcount.
      split; [lia|].
      intros H. apply Hs. now apply in_parents_of.
  + apply Nat.leb_gt in Htwo. cbn [bind].
    assert (forall s',
               child_links s' = child_links s ++ [(candidate, child)] ->
               get_parent_count s' child <= 2
               /\ ~ In child (get_parents s' child)) as Hdone.
    { intros s' Hs'. rewrite !parent_count_length in *.
      rewrite get_parents_of.
      rewrite Hs', parents_of_app, length_app. split.
      - unfold parents_of at 2. simpl.
        assert (uuid_eqb child child = true) as -> by now apply uuid_eqb_eq.
        simpl. lia.
      - rewrite <- parents_of_app. intros H. apply in_parents_of in H.
        apply in_app_or in H. destruct H as [H|[[= H]|[]]]; auto. }
    destruct (get_by_id (link_create s candidate child) candidate) as [p|];
      [destruct (status_eqb (status p) PENDING)|];
      eexists; (split; [reflexivity|]); now apply Hdone.
Qed.

Lemma merge_unreferenced (s : Store) (keep drop : UUID)
      (keep_person merge_person : Person) :
  get_by_id s keep = Some keep_person ->
  get_by_id s drop = Some merge_person ->
  unreferenced (_merge_persons s keep drop) drop.
Proof.
  intros Hk Hd.
  destruct (merge_tables s keep drop keep_person merge_person Hk Hd)
    as (rows & Hl & Hsp & _).
  split.
  + intros l Hin. rewrite Hl in Hin. eapply links_merged_clean; eauto.
  + intros l Hin. rewrite Hsp in Hin. apply filter_In in Hin.
    destruct Hin as [_ Hf]. apply andb_true_iff in Hf.
    destruct Hf as [H1 H2]. apply negb_true_iff in H1, H2.
    split; now apply uuid_eqb_neq.
Qed.

(** C1, as amended.  Take a child that has at most two parent links and
    is not its own parent, and a sequence of resolved parent ids, none
    of them the child itself, such that whenever one of them would be a
    third parent some existing parent passes the duplicate test.  Then
    the whole sequence goes through the parent branch without an
    exception, and the child ends with at most two parent links.  (Other
    persons may end up with more: the kept record takes over the parent
    links of the merged one.)  After a merge of two existing records no
    child link and no spouse link mentions the merged record. *)
Theorem reconcile_parent_invariant (s : Store) (child : UUID)
        (candidates : list (UUID * Z)) (keep drop : UUID) :
  (get_parent_count s child <= 2 ->
   ~ In child (get_parents s child) ->
   reconcilable s child candidates ->
   exists s',
     link_parents s child candidates = Ok s'
     /\ get_parent_count s' child <= 2
     /\ length (nodup N.eq_dec (get_parents s' child)) <= 2)
  /\ (forall keep_person merge_person,
         get_by_id s keep = Some keep_person ->
         get_by_id s drop = Some merge_person ->
         unreferenced (_merge_persons s keep drop) drop).
Proof.
  split; [|intros; eapply merge_unreferenced; eauto].
  assert (Hseq : forall cs s0,
             get_parent_count s0 child <= 2 ->
             ~ In child (get_parents s0 child) ->
             reconcilable s0 child cs ->
             exists s',
               link_parents s0 child cs = Ok s'
               /\ get_parent_count s' child <= 2).
  { induction cs as [|[candidate now] cs IH]; intros s0 Hc Hs Hr; simpl.
    - eauto.
    - destruct Hr as (Hne & Hdup & Hrest).
      destruct (link_parent_keeps_two s0 child candidate now Hc Hne Hs Hdup)
        as (s1 & H1 & Hc1 & Hs1).
      rewrite H1. cbn [bind]. apply IH; auto. }
  intros Hc Hs Hr. destruct (Hseq candidates s Hc Hs Hr) as (s' & H & Hc').
  exists s'. repeat split; auto.
  rewrite parent_count_length in Hc'. rewrite get_parents_of.
  etransitivity; [|exact Hc'].
  clear. induction (parents_of child (child_links s')) as [|p ps IH];
    simpl; [auto|]. destruct (in_dec N.eq_dec p ps); simpl; lia.
Qed.

Lemma family_duplicate : duplicate_detected family 1%N 4%N.
Proof.
  unfold duplicate_detected. do 3 eexists. repeat split; reflexivity.
Qed.

Lemma reconcile_parent_invariant_witness :
  exists s',
    link_parents family 1%N [(4%N, 0%Z)] = Ok s'
    /\ get_parent_count s' 1%N <= 2
    /\ length (nodup N.eq_dec (get_parents s' 1%N)) <= 2.
Proof.
  apply (proj1 (reconcile_parent_invariant family 1%N [(4%N, 0%Z)] 2%N 4%N)).
  - vm_compute. lia.
  - vm_compute. intuition discriminate.
  - simpl. split; [discriminate|]. split; [intros _ _; exact family_duplicate|].
    auto.
Defined.

(** Nobody in the family has more than two parents, and record 4 is a
    detectable duplicate of parent 2 of child 1.  Adding 4 as a parent of
    1 merges 4 into 2; the child keeps its two parents, but record 2
    takes over the parents of record 4 and ends up with four. *)
Lemma kept_record_gets_four_parents :
  at_most_two_parents family
  /\ reconcilable family 1%N [(4%N, 0%Z)]
  /\ exists s',
       link_parents family 1%N [(4%N, 0%Z)] = Ok s'
       /\ get_parents s' 1%N = [2; 3]%N
       /\ get_parents s' 2%N = [5; 6; 7; 8]%N
       /\ ~ at_most_two_parents s'.
Proof.
  split; [|split].
  - intros c.
    destruct (N.eq_dec c 1) as [->|H1]; [vm_compute; lia|].
    destruct (N.eq_dec c 2) as [->|H2]; [vm_compute; lia|].
    destruct (N.eq_dec c 4) as [->|H4]; [vm_compute; lia|].
    assert (Hf : forall k, k <> c -> uuid_eqb k c = false)
      by (intros; now apply uuid_eqb_neq).
    unfold get_parents, family. cbn [child_links filter snd].
    rewrite (Hf 1%N), (Hf 2%N), (Hf 4%N) by congruence.
    simpl. lia.
  - simpl. split; [discriminate|]. split; [intros _ _; exact family_duplicate|].
    auto.
  - eexists. split; [reflexivity|]. split; [reflexivity|].
    split; [reflexivity|].
    intros H. specialize (H 2%N). vm_compute in H. lia.
Qed.

(** The subject named as its own parent: child 1, John Smith, has the
    parents 2, a pending John Smith who in turn has the parents 4 and 5,
    and 3.  With itself as the candidate, the child is taken for a
    duplicate of 2, and having a biography it is the record that is
    kept: it takes over the links of 2 and ends up with four parents,
    itself among them. *)
Example own_parent_candidate :
  let s :=
    {| persons :=
         [ person_named 1 "John" "Smith" MALE (Some (lit "John's life."));
           person_named 2 "John" "Smith" MALE None;
           person_named 3 "Mary" "Smith" FEMALE None;
           person_named 4 "Eve" "Hill" FEMALE None;
           person_named 5 "Sam" "Smith" MALE None ]%N;
       child_links := [ (2, 1); (3, 1); (4, 2); (5, 2) ]%N;
       spouse_links := []; creation_queue := []; log := [] |} in
  option_map (fun s' => get_parents s' 1%N)
    (match link_parent s 1%N 1%N 0 with Ok s' => Some s' | Raise _ => None end)
  = Some [3; 1; 4; 5]%N.
Proof. reflexivity. Qed.

End MergeFacts.
